(** * ASMR prompt generator: the form state, the JSON builder and the self-test

    A shallow embedding of [src/components/App.jsx].  React state is a record
    threaded through the event handlers; browser side effects (clipboard,
    download, local storage) are returned as a list of effects; JavaScript
    exceptions are an error monad. *)

From Stdlib Require Import List PeanoNat NArith ZArith Bool Lia Permutation.
From Stdlib Require String Ascii.
Import ListNotations.
Import String.StringSyntax.
Delimit Scope string_scope with string.

Set Implicit Arguments.

(** ** JavaScript strings

    A JavaScript string is a sequence of UTF-16 code units.  A code unit is
    kept as an [N]; no result below needs the bound [0xFFFF]. *)

Definition code_unit := N.
Definition jsstring := list code_unit.

(** String literals of the source, written with Rocq's [string] notation. *)
Definition js (s : String.string) : jsstring :=
  map Ascii.N_of_ascii (String.list_ascii_of_string s).
Arguments js s%_string_scope.

(** [a === b] on strings. *)
Fixpoint strict_eq (a b : jsstring) : bool :=
  match a, b with
  | [], [] => true
  | x :: a', y :: b' => (x =? y)%N && strict_eq a' b'
  | _, _ => false
  end.

(** [a !== b] on strings. *)
Definition strict_neq (a b : jsstring) : bool := negb (strict_eq a b).

(** [Array.prototype.includes] on an array of strings. *)
Definition includes (item : jsstring) (l : list jsstring) : bool :=
  existsb (fun i => strict_eq i item) l.

(** [Array.prototype.join]. *)
Fixpoint join (sep : jsstring) (parts : list jsstring) : jsstring :=
  match parts with
  | [] => []
  | [p] => p
  | p :: rest => p ++ sep ++ join sep rest
  end.

(** ** JSON values *)

Set Warnings "-register-all".

Inductive JValue :=
| JNull
| JBool (b : bool)
| JNumber (literal : jsstring)
| JString (s : jsstring)
| JArray (elements : list JValue)
| JObject (members : list (jsstring * JValue)).

(** Exceptions of the JavaScript operations used by the self-test. *)
Inductive exn := SyntaxError | TypeError.

Inductive completion (A : Type) :=
| Normal (a : A)
| Throw (e : exn).
Arguments Normal {A} a.
Arguments Throw {A} e.

Definition bind {A B} (c : completion A) (k : A -> completion B) : completion B :=
  match c with
  | Normal a => k a
  | Throw e => Throw e
  end.

Notation "x <- c ;; k" := (bind c (fun x => k))
  (at level 61, c at next level, right associativity).

(** ** [JSON.stringify(value, null, 2)]

    The clauses follow ECMA-262: QuoteJSONString, SerializeJSONArray and
    SerializeJSONObject with a gap of two spaces. *)

Definition LF : code_unit := 10%N.
Definition QUOTE : code_unit := 34%N.
Definition BACKSLASH : code_unit := 92%N.

Definition hex_digit (d : N) : code_unit :=
  if (d <? 10)%N then (48 + d)%N else (87 + d)%N.

Definition hex4 (c : code_unit) : jsstring :=
  [hex_digit ((c / 4096) mod 16); hex_digit ((c / 256) mod 16);
   hex_digit ((c / 16) mod 16); hex_digit (c mod 16)]%N.

(** [UnicodeEscape]: a backslash, [u] and four lowercase hexadecimal digits. *)
Definition UnicodeEscape (c : code_unit) : jsstring :=
  BACKSLASH :: 117%N :: hex4 c.

Definition is_lead_surrogate (c : code_unit) : bool :=
  ((55296 <=? c) && (c <=? 56319))%N.
Definition is_trail_surrogate (c : code_unit) : bool :=
  ((56320 <=? c) && (c <=? 57343))%N.

(** One code unit that is not part of a surrogate pair. *)
Definition quote_unit (c : code_unit) : jsstring :=
  if (c =? 8)%N then [BACKSLASH; 98%N]
  else if (c =? 9)%N then [BACKSLASH; 116%N]
  else if (c =? 10)%N then [BACKSLASH; 110%N]
  else if (c =? 12)%N then [BACKSLASH; 102%N]
  else if (c =? 13)%N then [BACKSLASH; 114%N]
  else if (c =? 34)%N then [BACKSLASH; QUOTE]
  else if (c =? 92)%N then [BACKSLASH; BACKSLASH]
  else if (c <? 32)%N || is_lead_surrogate c || is_trail_surrogate c
       then UnicodeEscape c
  else [c].

(** The string is read by code points: a lead surrogate followed by a trail
    surrogate is copied as it is, a lone surrogate is escaped. *)
Fixpoint quote_units (s : jsstring) : jsstring :=
  match s with
  | [] => []
  | c :: r =>
      if is_lead_surrogate c then
        match r with
        | d :: r' =>
            if is_trail_surrogate d then c :: d :: quote_units r'
            else quote_unit c ++ quote_units r
        | [] => quote_unit c
        end
      else quote_unit c ++ quote_units r
  end.

Definition QuoteJSONString (s : jsstring) : jsstring :=
  QUOTE :: quote_units s ++ [QUOTE].

Definition gap : jsstring := js "  ".

Fixpoint SerializeJSONProperty (indent : jsstring) (v : JValue) : jsstring :=
  match v with
  | JNull => js "null"
  | JBool b => if b then js "true" else js "false"
  | JNumber n => n
  | JString s => QuoteJSONString s
  | JArray elements =>
      let stepback := indent in
      let indent := indent ++ gap in
      match elements with
      | [] => js "[]"
      | _ =>
          let separator := js "," ++ [LF] ++ indent in
          js "[" ++ [LF] ++ indent
            ++ join separator (map (SerializeJSONProperty indent) elements)
            ++ [LF] ++ stepback ++ js "]"
      end
  | JObject members =>
      let stepback := indent in
      let indent := indent ++ gap in
      match members with
      | [] => js "{}"
      | _ =>
          let separator := js "," ++ [LF] ++ indent in
          js "{" ++ [LF] ++ indent
            ++ join separator
                 (map (fun m => match m with
                                | (k, x) => QuoteJSONString k ++ js ": "
                                              ++ SerializeJSONProperty indent x
                                end) members)
            ++ [LF] ++ stepback ++ js "}"
      end
  end.

Definition JSON_stringify (v : JValue) : jsstring := SerializeJSONProperty [] v.

(** ** [JSON.parse(text)]

    The JSON grammar of ECMA-404, as ECMA-262 reads it: four white space
    characters, no trailing comma, no raw control character inside a string.
    The number a literal denotes plays no role in the program, so a number is
    kept as its literal.  The recursion on nested values is by fuel;
    [parse_fuel_enough] shows that the fuel [JSON_parse] gives is never the
    reason for a failure. *)

Definition is_json_ws (c : code_unit) : bool :=
  ((c =? 9) || (c =? 10) || (c =? 13) || (c =? 32))%N.

Fixpoint skip_ws (s : jsstring) : jsstring :=
  match s with
  | c :: r => if is_json_ws c then skip_ws r else s
  | [] => []
  end.

Definition hex_value (c : code_unit) : option N :=
  if ((48 <=? c) && (c <=? 57))%N then Some (c - 48)%N
  else if ((97 <=? c) && (c <=? 102))%N then Some (c - 87)%N
  else if ((65 <=? c) && (c <=? 70))%N then Some (c - 55)%N
  else None.

(** The character after a backslash, [u] apart. *)
Definition simple_escape (e : code_unit) : option code_unit :=
  if (e =? 34)%N then Some 34%N
  else if (e =? 92)%N then Some 92%N
  else if (e =? 47)%N then Some 47%N
  else if (e =? 98)%N then Some 8%N
  else if (e =? 102)%N then Some 12%N
  else if (e =? 110)%N then Some 10%N
  else if (e =? 114)%N then Some 13%N
  else if (e =? 116)%N then Some 9%N
  else None.

(** The characters of a string after its opening quote, up to and including
    the closing quote. *)
Fixpoint parse_string_chars (s : jsstring) : option (jsstring * jsstring) :=
  match s with
  | [] => None
  | c :: r =>
      if (c =? 34)%N then Some ([], r)
      else if (c =? 92)%N then
        match r with
        | [] => None
        | e :: r1 =>
            if (e =? 117)%N then
              match r1 with
              | h1 :: h2 :: h3 :: h4 :: r2 =>
                  match hex_value h1, hex_value h2, hex_value h3, hex_value h4 with
                  | Some a, Some b, Some c', Some d =>
                      match parse_string_chars r2 with
                      | Some (str, rest) =>
                          Some ((4096 * a + 256 * b + 16 * c' + d)%N :: str, rest)
                      | None => None
                      end
                  | _, _, _, _ => None
                  end
              | _ => None
              end
            else
              match simple_escape e with
              | Some u =>
                  match parse_string_chars r1 with
                  | Some (str, rest) => Some (u :: str, rest)
                  | None => None
                  end
              | None => None
              end
        end
      else if (c <? 32)%N then None
      else
        match parse_string_chars r with
        | Some (str, rest) => Some (c :: str, rest)
        | None => None
        end
  end.

Definition is_digit (c : code_unit) : bool := ((48 <=? c) && (c <=? 57))%N.

(** The longest prefix of digits, and what follows it. *)
Fixpoint take_digits (s : jsstring) : jsstring * jsstring :=
  match s with
  | c :: r =>
      if is_digit c then let (ds, rest) := take_digits r in (c :: ds, rest)
      else ([], s)
  | [] => ([], [])
  end.

Definition parse_sign (s : jsstring) : jsstring * jsstring :=
  match s with
  | c :: r => if (c =? 45)%N then ([c], r) else ([], s)
  | [] => ([], s)
  end.

Definition parse_int (s : jsstring) : option (jsstring * jsstring) :=
  match s with
  | c :: r =>
      if (c =? 48)%N then Some ([c], r)
      else if is_digit c then let (ds, rest) := take_digits r in Some (c :: ds, rest)
      else None
  | [] => None
  end.

Definition parse_frac (s : jsstring) : option (jsstring * jsstring) :=
  match s with
  | c :: r =>
      if (c =? 46)%N then
        match take_digits r with
        | ([], _) => None
        | (ds, rest) => Some (c :: ds, rest)
        end
      else Some ([], s)
  | [] => Some ([], s)
  end.

Definition parse_exp (s : jsstring) : option (jsstring * jsstring) :=
  match s with
  | c :: r =>
      if ((c =? 101) || (c =? 69))%N then
        let (sg, r1) :=
          match r with
          | p :: r' => if ((p =? 43) || (p =? 45))%N then ([p], r') else ([], r)
          | [] => ([], r)
          end in
        match take_digits r1 with
        | ([], _) => None
        | (ds, rest) => Some (c :: sg ++ ds, rest)
        end
      else Some ([], s)
  | [] => Some ([], s)
  end.

Definition parse_number (s : jsstring) : option (jsstring * jsstring) :=
  let (sg, s1) := parse_sign s in
  match parse_int s1 with
  | Some (i, s2) =>
      match parse_frac s2 with
      | Some (f, s3) =>
          match parse_exp s3 with
          | Some (e, s4) => Some (sg ++ i ++ f ++ e, s4)
          | None => None
          end
      | None => None
      end
  | None => None
  end.

Fixpoint strip_prefix (p s : jsstring) : option jsstring :=
  match p, s with
  | [], _ => Some s
  | x :: p', y :: s' => if (x =? y)%N then strip_prefix p' s' else None
  | _ :: _, [] => None
  end.

(** [CreateDataProperty]: a repeated key keeps its place and takes the later
    value. *)
Fixpoint define_property (k : jsstring) (v : JValue)
    (ms : list (jsstring * JValue)) : list (jsstring * JValue) :=
  match ms with
  | [] => [(k, v)]
  | (k', v') :: r =>
      if strict_eq k' k then (k', v) :: r else (k', v') :: define_property k v r
  end.

Definition object_of_members (ms : list (jsstring * JValue)) : JValue :=
  JObject (fold_left (fun acc m => define_property (fst m) (snd m) acc) ms []).

(** A string, a literal name or a number. *)
Definition parse_atom (s : jsstring) : option (JValue * jsstring) :=
  match s with
  | [] => None
  | c :: r =>
      if (c =? 34)%N then
        match parse_string_chars r with
        | Some (str, rest) => Some (JString str, rest)
        | None => None
        end
      else
        match strip_prefix (js "null") s with
        | Some rest => Some (JNull, rest)
        | None =>
        match strip_prefix (js "true") s with
        | Some rest => Some (JBool true, rest)
        | None =>
        match strip_prefix (js "false") s with
        | Some rest => Some (JBool false, rest)
        | None =>
        match parse_number s with
        | Some (n, rest) => Some (JNumber n, rest)
        | None => None
        end end end end
  end.

Fixpoint parse_value (fuel : nat) (s : jsstring) {struct fuel}
  : option (JValue * jsstring) :=
  match fuel with
  | O => None
  | S fuel =>
      match skip_ws s with
      | [] => None
      | c :: r =>
          if (c =? 91)%N then
            match skip_ws r with
            | [] => None
            | c1 :: r1 =>
                if (c1 =? 93)%N then Some (JArray [], r1)
                else
                  match parse_elements fuel (c1 :: r1) with
                  | Some (vs, rest) => Some (JArray vs, rest)
                  | None => None
                  end
            end
          else if (c =? 123)%N then
            match skip_ws r with
            | [] => None
            | c1 :: r1 =>
                if (c1 =? 125)%N then Some (JObject [], r1)
                else
                  match parse_members fuel (c1 :: r1) with
                  | Some (ms, rest) => Some (object_of_members ms, rest)
                  | None => None
                  end
            end
          else parse_atom (c :: r)
      end
  end

with parse_elements (fuel : nat) (s : jsstring) {struct fuel}
  : option (list JValue * jsstring) :=
  match fuel with
  | O => None
  | S fuel =>
      match parse_value fuel s with
      | None => None
      | Some (v, r) =>
          match skip_ws r with
          | [] => None
          | c :: r1 =>
              if (c =? 44)%N then
                match parse_elements fuel r1 with
                | Some (vs, rest) => Some (v :: vs, rest)
                | None => None
                end
              else if (c =? 93)%N then Some ([v], r1)
              else None
          end
      end
  end

with parse_members (fuel : nat) (s : jsstring) {struct fuel}
  : option (list (jsstring * JValue) * jsstring) :=
  match fuel with
  | O => None
  | S fuel =>
      match skip_ws s with
      | [] => None
      | q :: r0 =>
          if (q =? 34)%N then
            match parse_string_chars r0 with
            | None => None
            | Some (k, r1) =>
                match skip_ws r1 with
                | [] => None
                | c :: r2 =>
                    if (c =? 58)%N then
                      match parse_value fuel r2 with
                      | None => None
                      | Some (v, r3) =>
                          match skip_ws r3 with
                          | [] => None
                          | d :: r4 =>
                              if (d =? 44)%N then
                                match parse_members fuel r4 with
                                | Some (ms, rest) => Some ((k, v) :: ms, rest)
                                | None => None
                                end
                              else if (d =? 125)%N then Some ([(k, v)], r4)
                              else None
                          end
                      end
                    else None
                end
            end
          else None
      end
  end.

Definition parse_fuel (text : jsstring) : nat := 2 * length text + 2.

(** [JSON.parse]: one value, white space around it, and nothing else; a
    [SyntaxError] otherwise. *)
Definition JSON_parse (text : jsstring) : completion JValue :=
  match parse_value (parse_fuel text) text with
  | Some (v, rest) =>
      match skip_ws rest with
      | [] => Normal v
      | _ :: _ => Throw SyntaxError
      end
  | None => Throw SyntaxError
  end.

(** ** Property reads and the [in] operator on parsed values *)

(** Property names found on [Object.prototype] and [Array.prototype]
    (ECMA-262, 2023); [in] follows the prototype chain. *)
Definition Object_prototype : list jsstring :=
  [js "constructor"; js "hasOwnProperty"; js "isPrototypeOf";
   js "propertyIsEnumerable"; js "toLocaleString"; js "toString";
   js "valueOf"; js "__proto__"; js "__defineGetter__";
   js "__defineSetter__"; js "__lookupGetter__"; js "__lookupSetter__"].

Definition Array_prototype : list jsstring :=
  [js "at"; js "concat"; js "copyWithin"; js "entries"; js "every";
   js "fill"; js "filter"; js "find"; js "findIndex"; js "findLast";
   js "findLastIndex"; js "flat"; js "flatMap"; js "forEach";
   js "includes"; js "indexOf"; js "join"; js "keys"; js "lastIndexOf";
   js "map"; js "pop"; js "push"; js "reduce"; js "reduceRight";
   js "reverse"; js "shift"; js "slice"; js "some"; js "sort"; js "splice";
   js "toReversed"; js "toSorted"; js "toSpliced"; js "unshift";
   js "values"; js "with"].

Fixpoint decimal_value (acc : N) (s : jsstring) : option N :=
  match s with
  | [] => Some acc
  | c :: r => if is_digit c then decimal_value (10 * acc + (c - 48))%N r else None
  end.

(** The array index a property name denotes: decimal digits with no leading
    zero. *)
Definition array_index (key : jsstring) : option N :=
  match key with
  | [] => None
  | [c] => if is_digit c then Some (c - 48)%N else None
  | c :: r =>
      if is_digit c && negb (c =? 48)%N then decimal_value (c - 48)%N r else None
  end.

Definition own_key (key : jsstring) (ms : list (jsstring * JValue)) : bool :=
  existsb (fun m => strict_eq (fst m) key) ms.

Fixpoint lookup (key : jsstring) (ms : list (jsstring * JValue)) : option JValue :=
  match ms with
  | [] => None
  | (k, v) :: r => if strict_eq k key then Some v else lookup key r
  end.

(** [key in rval]; [None] stands for [undefined].  The operator throws a
    [TypeError] unless its right operand is an object. *)
Definition js_in (key : jsstring) (rval : option JValue) : completion bool :=
  match rval with
  | Some (JObject ms) => Normal (own_key key ms || includes key Object_prototype)
  | Some (JArray xs) =>
      Normal (match array_index key with
              | Some i => (i <? N.of_nat (length xs))%N
              | None => false
              end
              || strict_eq key (js "length")
              || includes key Array_prototype
              || includes key Object_prototype)
  | _ => Throw TypeError
  end.

(** [v.key] for a parsed value [v].  Reading from [null] throws.  A name found
    only on a prototype reads a built-in function and [length] reads a number;
    the program reads neither, and such a read is given as [undefined]. *)
Definition get_property (v : JValue) (key : jsstring) : completion (option JValue) :=
  match v with
  | JNull => Throw TypeError
  | JObject ms => Normal (lookup key ms)
  | JArray xs =>
      Normal (match array_index key with
              | Some i => nth_error xs (N.to_nat i)
              | None => None
              end)
  | _ => Normal None
  end.

(** [Array.prototype.every] with a callback that may throw. *)
Fixpoint every (f : jsstring -> completion bool) (l : list jsstring)
  : completion bool :=
  match l with
  | [] => Normal true
  | x :: r => b <- f x ;; if b then every f r else Normal false
  end.

(** [a && b] on completions: [b] is evaluated only when [a] is true. *)
Definition and_then (a b : completion bool) : completion bool :=
  x <- a ;; if x then b else Normal false.

Infix "&&&" := and_then (at level 40, left associativity).

(** ** The option lists, the presets and the form state (lines 9 to 83) *)

Definition MOODS : list jsstring :=
  [js "Calm"; js "Cozy"; js "Mysterious"; js "Ethereal"; js "Melancholy"; js "Dreamy"].
Definition CAMERA_MOVEMENTS : list jsstring :=
  [js "Static"; js "Slow Pan"; js "Slow Zoom In"; js "Slow Zoom Out"; js "Dolly";
   js "Handheld"].
Definition CAMERA_ANGLES : list jsstring :=
  [js "Eye-level"; js "Low Angle"; js "High Angle"; js "Dutch Angle"; js "Close-up";
   js "Wide Shot"].
Definition CAMERA_FOCUS : list jsstring :=
  [js "Soft Focus"; js "Deep Focus"; js "Rack Focus"; js "Shallow Depth of Field"].
Definition PRIMARY_SOUNDS : list jsstring :=
  [js "Rain"; js "Fireplace"; js "Wind"; js "Ocean Waves"; js "Forest Ambience";
   js "Keyboard Typing"; js "None"].
Definition SECONDARY_SOUNDS : list jsstring :=
  [js "Thunder"; js "Birds Chirping"; js "Pages Turning"; js "Whispering";
   js "Ticking Clock"; js "Purring Cat"].
Definition SOUND_QUALITIES : list jsstring :=
  [js "High-Fidelity (Binaural)"; js "Lo-fi"; js "Muffled"; js "Crisp"].
Definition VISUAL_EFFECTS : list jsstring :=
  [js "Soft Glow"; js "Fog"; js "Muted Tones"; js "Film Grain"; js "Lens Flare";
   js "Dust Particles"].

Record FormState := mkFormState {
  idea : jsstring;
  moods : list jsstring;
  cameraMovement : jsstring;
  cameraAngle : jsstring;
  cameraFocus : jsstring;
  soundscapePrimary : jsstring;
  soundscapeSecondary : list jsstring;
  soundscapeQuality : jsstring;
  visualEffects : list jsstring
}.

(** The [settings] object of a preset: any subset of the fields. *)
Record Settings := mkSettings {
  s_idea : option jsstring;
  s_moods : option (list jsstring);
  s_cameraMovement : option jsstring;
  s_cameraAngle : option jsstring;
  s_cameraFocus : option jsstring;
  s_soundscapePrimary : option jsstring;
  s_soundscapeSecondary : option (list jsstring);
  s_soundscapeQuality : option jsstring;
  s_visualEffects : option (list jsstring)
}.

Record Preset := mkPreset {
  name : jsstring;
  settings : Settings
}.

Definition PRESETS : list Preset :=
  [ {| name := js "Forest Rain";
       settings :=
         {| s_idea := None;
            s_moods := Some [js "Calm"; js "Melancholy"];
            s_cameraMovement := Some (js "Slow Zoom In");
            s_cameraAngle := Some (js "Low Angle");
            s_cameraFocus := Some (js "Soft Focus");
            s_soundscapePrimary := Some (js "Rain");
            s_soundscapeSecondary := Some [js "Thunder"; js "Wind"];
            s_soundscapeQuality := Some (js "High-Fidelity (Binaural)");
            s_visualEffects := Some [js "Fog"; js "Muted Tones"] |} |};
    {| name := js "Cozy Fireplace";
       settings :=
         {| s_idea := None;
            s_moods := Some [js "Cozy"; js "Calm"];
            s_cameraMovement := Some (js "Static");
            s_cameraAngle := Some (js "Eye-level");
            s_cameraFocus := Some (js "Shallow Depth of Field");
            s_soundscapePrimary := Some (js "Fireplace");
            s_soundscapeSecondary := Some [js "Ticking Clock"; js "Purring Cat"];
            s_soundscapeQuality := Some (js "High-Fidelity (Binaural)");
            s_visualEffects := Some [js "Soft Glow"; js "Film Grain"] |} |};
    {| name := js "Late Night Study";
       settings :=
         {| s_idea := None;
            s_moods := Some [js "Calm"; js "Cozy"];
            s_cameraMovement := Some (js "Slow Pan");
            s_cameraAngle := Some (js "High Angle");
            s_cameraFocus := Some (js "Rack Focus");
            s_soundscapePrimary := Some (js "Keyboard Typing");
            s_soundscapeSecondary := Some [js "Pages Turning"; js "Whispering"];
            s_soundscapeQuality := Some (js "Crisp");
            s_visualEffects := Some [js "Soft Glow"; js "Dust Particles"] |} |};
    {| name := js "Ethereal Dream";
       settings :=
         {| s_idea := None;
            s_moods := Some [js "Ethereal"; js "Dreamy"; js "Mysterious"];
            s_cameraMovement := Some (js "Dolly");
            s_cameraAngle := Some (js "Wide Shot");
            s_cameraFocus := Some (js "Soft Focus");
            s_soundscapePrimary := Some (js "Wind");
            s_soundscapeSecondary := Some [];
            s_soundscapeQuality := Some (js "Muffled");
            s_visualEffects := Some [js "Soft Glow"; js "Fog"; js "Muted Tones"] |} |} ].

(** [OPTIONS[0]]; every option list is a non-empty constant, so the value for
    an empty list is never read. *)
Definition first_option (options : list jsstring) : jsstring := nth 0 options [].

Definition initialState : FormState :=
  {| idea := js "";
     moods := [];
     cameraMovement := first_option CAMERA_MOVEMENTS;
     cameraAngle := first_option CAMERA_ANGLES;
     cameraFocus := first_option CAMERA_FOCUS;
     soundscapePrimary := first_option PRIMARY_SOUNDS;
     soundscapeSecondary := [];
     soundscapeQuality := first_option SOUND_QUALITIES;
     visualEffects := [] |}.

(** The three multi-valued fields, as [toggleMultiSelect] receives them in
    [field], and the five fields bound to a [SelectControl]. *)
Inductive MultiField := Moods | SoundscapeSecondary | VisualEffects.

Inductive SelectField :=
| CameraMovement | CameraAngle | CameraFocus | SoundscapePrimary | SoundscapeQuality.

(** [prev[field]]. *)
Definition get_multi (field : MultiField) (s : FormState) : list jsstring :=
  match field with
  | Moods => moods s
  | SoundscapeSecondary => soundscapeSecondary s
  | VisualEffects => visualEffects s
  end.

(** [{ ...prev, [field]: v }]. *)
Definition set_multi (field : MultiField) (v : list jsstring) (prev : FormState)
  : FormState :=
  match field with
  | Moods =>
      mkFormState (idea prev) v (cameraMovement prev) (cameraAngle prev)
        (cameraFocus prev) (soundscapePrimary prev) (soundscapeSecondary prev)
        (soundscapeQuality prev) (visualEffects prev)
  | SoundscapeSecondary =>
      mkFormState (idea prev) (moods prev) (cameraMovement prev) (cameraAngle prev)
        (cameraFocus prev) (soundscapePrimary prev) v
        (soundscapeQuality prev) (visualEffects prev)
  | VisualEffects =>
      mkFormState (idea prev) (moods prev) (cameraMovement prev) (cameraAngle prev)
        (cameraFocus prev) (soundscapePrimary prev) (soundscapeSecondary prev)
        (soundscapeQuality prev) v
  end.

Definition get_select (field : SelectField) (s : FormState) : jsstring :=
  match field with
  | CameraMovement => cameraMovement s
  | CameraAngle => cameraAngle s
  | CameraFocus => cameraFocus s
  | SoundscapePrimary => soundscapePrimary s
  | SoundscapeQuality => soundscapeQuality s
  end.

Definition set_select (field : SelectField) (v : jsstring) (prev : FormState)
  : FormState :=
  match field with
  | CameraMovement =>
      mkFormState (idea prev) (moods prev) v (cameraAngle prev)
        (cameraFocus prev) (soundscapePrimary prev) (soundscapeSecondary prev)
        (soundscapeQuality prev) (visualEffects prev)
  | CameraAngle =>
      mkFormState (idea prev) (moods prev) (cameraMovement prev) v
        (cameraFocus prev) (soundscapePrimary prev) (soundscapeSecondary prev)
        (soundscapeQuality prev) (visualEffects prev)
  | CameraFocus =>
      mkFormState (idea prev) (moods prev) (cameraMovement prev) (cameraAngle prev)
        v (soundscapePrimary prev) (soundscapeSecondary prev)
        (soundscapeQuality prev) (visualEffects prev)
  | SoundscapePrimary =>
      mkFormState (idea prev) (moods prev) (cameraMovement prev) (cameraAngle prev)
        (cameraFocus prev) v (soundscapeSecondary prev)
        (soundscapeQuality prev) (visualEffects prev)
  | SoundscapeQuality =>
      mkFormState (idea prev) (moods prev) (cameraMovement prev) (cameraAngle prev)
        (cameraFocus prev) (soundscapePrimary prev) (soundscapeSecondary prev)
        v (visualEffects prev)
  end.

Definition set_idea (v : jsstring) (prev : FormState) : FormState :=
  mkFormState v (moods prev) (cameraMovement prev) (cameraAngle prev)
    (cameraFocus prev) (soundscapePrimary prev) (soundscapeSecondary prev)
    (soundscapeQuality prev) (visualEffects prev).

(** The option list each control renders. *)
Definition items (field : MultiField) : list jsstring :=
  match field with
  | Moods => MOODS
  | SoundscapeSecondary => SECONDARY_SOUNDS
  | VisualEffects => VISUAL_EFFECTS
  end.

Definition options (field : SelectField) : list jsstring :=
  match field with
  | CameraMovement => CAMERA_MOVEMENTS
  | CameraAngle => CAMERA_ANGLES
  | CameraFocus => CAMERA_FOCUS
  | SoundscapePrimary => PRIMARY_SOUNDS
  | SoundscapeQuality => SOUND_QUALITIES
  end.

(** All nine fields, to speak of "every field" of a form state or of a
    preset. *)
Inductive Field :=
| Idea
| Multi (field : MultiField)
| Select (field : SelectField).

Inductive FieldValue :=
| Text (s : jsstring)
| Items (l : list jsstring).

Definition field_value (f : Field) (s : FormState) : FieldValue :=
  match f with
  | Idea => Text (idea s)
  | Multi m => Items (get_multi m s)
  | Select c => Text (get_select c s)
  end.

(** The value a [settings] object gives a field, when it names the field. *)
Definition setting (f : Field) (p : Settings) : option FieldValue :=
  match f with
  | Idea => option_map Text (s_idea p)
  | Multi Moods => option_map Items (s_moods p)
  | Multi SoundscapeSecondary => option_map Items (s_soundscapeSecondary p)
  | Multi VisualEffects => option_map Items (s_visualEffects p)
  | Select CameraMovement => option_map Text (s_cameraMovement p)
  | Select CameraAngle => option_map Text (s_cameraAngle p)
  | Select CameraFocus => option_map Text (s_cameraFocus p)
  | Select SoundscapePrimary => option_map Text (s_soundscapePrimary p)
  | Select SoundscapeQuality => option_map Text (s_soundscapeQuality p)
  end.

Definition overwrite {A} (current : A) (given : option A) : A :=
  match given with
  | Some v => v
  | None => current
  end.

(** [{ ...prev, ...settings }]: each property of [settings] replaces the
    property of the same name. *)
Definition spread (prev : FormState) (p : Settings) : FormState :=
  {| idea := overwrite (idea prev) (s_idea p);
     moods := overwrite (moods prev) (s_moods p);
     cameraMovement := overwrite (cameraMovement prev) (s_cameraMovement p);
     cameraAngle := overwrite (cameraAngle prev) (s_cameraAngle p);
     cameraFocus := overwrite (cameraFocus prev) (s_cameraFocus p);
     soundscapePrimary := overwrite (soundscapePrimary prev) (s_soundscapePrimary p);
     soundscapeSecondary :=
       overwrite (soundscapeSecondary prev) (s_soundscapeSecondary p);
     soundscapeQuality := overwrite (soundscapeQuality prev) (s_soundscapeQuality p);
     visualEffects := overwrite (visualEffects prev) (s_visualEffects p) |}.

(** ** The state of the [App] component (lines 116 to 121) *)

Inductive ValidationStatus := unchecked | valid | invalid.

Record AppState := mkAppState {
  formState : FormState;
  generatedJson : option jsstring;      (* [None] is [null] *)
  validationStatus : ValidationStatus;
  copyButtonText : jsstring;
  theme : jsstring;
  effectiveTheme : jsstring
}.

Definition setFormState (f : FormState -> FormState) (st : AppState) : AppState :=
  mkAppState (f (formState st)) (generatedJson st) (validationStatus st)
    (copyButtonText st) (theme st) (effectiveTheme st).

Definition setGeneratedJson (v : option jsstring) (st : AppState) : AppState :=
  mkAppState (formState st) v (validationStatus st)
    (copyButtonText st) (theme st) (effectiveTheme st).

Definition setValidationStatus (v : ValidationStatus) (st : AppState) : AppState :=
  mkAppState (formState st) (generatedJson st) v
    (copyButtonText st) (theme st) (effectiveTheme st).

Definition setCopyButtonText (v : jsstring) (st : AppState) : AppState :=
  mkAppState (formState st) (generatedJson st) (validationStatus st)
    v (theme st) (effectiveTheme st).

Definition setTheme (v : jsstring) (st : AppState) : AppState :=
  mkAppState (formState st) (generatedJson st) (validationStatus st)
    (copyButtonText st) v (effectiveTheme st).

Definition setEffectiveTheme (v : jsstring) (st : AppState) : AppState :=
  mkAppState (formState st) (generatedJson st) (validationStatus st)
    (copyButtonText st) (theme st) v.

(** [localStorage.getItem('asmr-veo-theme') || 'dark'] with the stored value
    as a parameter. *)
Definition initialAppState (stored : option jsstring) : AppState :=
  let t := match stored with
           | Some (c :: s) => c :: s
           | _ => js "dark"
           end in
  {| formState := initialState;
     generatedJson := None;
     validationStatus := unchecked;
     copyButtonText := js "Copy";
     theme := t;
     effectiveTheme := t |}.

(** What a handler does outside the component's state. *)
Inductive Effect :=
| ClipboardWriteText (text : jsstring)
| SetTimeout (delay : N)
| Download (fileName content mimeType : jsstring)
| LocalStorageSetItem (key value : jsstring)
| SetDataTheme (value : option jsstring).

(** [!generatedJson]: [null] and the empty string are falsy. *)
Definition truthy (v : option jsstring) : option jsstring :=
  match v with
  | Some (c :: s) => Some (c :: s)
  | _ => None
  end.

(** ** String operations of the download name (line 220) *)

(** ECMA-262 WhiteSpace and LineTerminator: what [trim] strips and what [\s]
    matches. *)
Definition is_space (c : code_unit) : bool :=
  ((9 <=? c) && (c <=? 13) || (c =? 32) || (c =? 160) || (c =? 5760)
   || (8192 <=? c) && (c <=? 8202) || (c =? 8232) || (c =? 8233)
   || (c =? 8239) || (c =? 8287) || (c =? 12288) || (c =? 65279))%N.

Fixpoint trimStart (s : jsstring) : jsstring :=
  match s with
  | c :: r => if is_space c then trimStart r else s
  | [] => []
  end.

Definition trimEnd (s : jsstring) : jsstring := rev (trimStart (rev s)).

Definition trim (s : jsstring) : jsstring := trimEnd (trimStart s).

Definition UNDERSCORE : code_unit := 95%N.

(** [s.replace(/\s+/g, '_')].  [in_match] says that the unit before [s]
    belongs to the match of [\s+] being read, whose replacement is already
    written. *)
Fixpoint replace_from (in_match : bool) (s : jsstring) : jsstring :=
  match s with
  | [] => []
  | c :: r =>
      if is_space c then
        if in_match then replace_from true r
        else UNDERSCORE :: replace_from true r
      else c :: replace_from false r
  end.

Definition replace_space_runs (s : jsstring) : jsstring := replace_from false s.

(** [s.split(/\s+/)]: the pieces between the maximal runs of white space; a
    run at either end leaves an empty piece there. *)
Fixpoint split_spaces (s : jsstring) : list jsstring :=
  match s with
  | [] => [[]]
  | c :: r =>
      if is_space c then
        match r with
        | d :: _ => if is_space d then split_spaces r else [] :: split_spaces r
        | [] => [] :: split_spaces r
        end
      else
        match split_spaces r with
        | f :: fs => (c :: f) :: fs
        | [] => [[c]]
        end
  end.

Definition is_empty (s : jsstring) : bool :=
  match s with
  | [] => true
  | _ :: _ => false
  end.

(** ** The JSON builder and the self-test (lines 177 to 198, 228 to 245) *)

(** The object literal [jsonObject] of [handleGenerateJson]. *)
Definition jsonObject (formState : FormState) : JValue :=
  let strings := map JString in
  JObject
    [ (js "title", JString (idea formState));
      (js "description",
        JString (js "An ASMR-style video about: " ++ idea formState ++ js "."));
      (js "style", JString (js "ASMR"));
      (js "mood", JArray (strings (moods formState)));
      (js "camera",
        JObject
          [ (js "movement", JString (cameraMovement formState));
            (js "angle", JString (cameraAngle formState));
            (js "focus", JString (cameraFocus formState)) ]);
      (js "soundscape",
        JObject
          [ (js "primary", JString (soundscapePrimary formState));
            (js "secondary", JArray (strings (soundscapeSecondary formState)));
            (js "quality", JString (soundscapeQuality formState)) ]);
      (js "visual_effects", JArray (strings (visualEffects formState))) ].

Definition requiredKeys : list jsstring :=
  [js "title"; js "description"; js "style"; js "mood"; js "camera";
   js "soundscape"; js "visual_effects"].

(** [key in parsed.member]. *)
Definition in_member (key : jsstring) (parsed : JValue) (member : jsstring)
  : completion bool :=
  o <- get_property parsed member ;; js_in key o.

(** The body of the [try] block of [handleSelfTest]: the status it sets, or
    the exception it throws. *)
Definition selfTest_try (generatedJson : jsstring) : completion ValidationStatus :=
  parsed <- JSON_parse generatedJson ;;
  hasAllKeys <- every (fun key => js_in key (Some parsed)) requiredKeys ;;
  cameraKeysOk <- in_member (js "movement") parsed (js "camera")
                    &&& in_member (js "angle") parsed (js "camera")
                    &&& in_member (js "focus") parsed (js "camera") ;;
  soundscapeKeysOk <- in_member (js "primary") parsed (js "soundscape")
                        &&& in_member (js "secondary") parsed (js "soundscape")
                        &&& in_member (js "quality") parsed (js "soundscape") ;;
  Normal (if hasAllKeys && cameraKeysOk && soundscapeKeysOk then valid else invalid).

(** The [try] block with its [catch]: every exception becomes [invalid]. *)
Definition selfTest (generatedJson : jsstring) : ValidationStatus :=
  match selfTest_try generatedJson with
  | Normal status => status
  | Throw _ => invalid
  end.

(** ** The event handlers (lines 150 to 245)

    A handler maps the state to the next state and the effects it performs.
    [String.prototype.toLowerCase] follows the Unicode case tables of the
    host, which are not part of this development: it is a parameter. *)

Section Handlers.

Variable toLowerCase : jsstring -> jsstring.

(** [handleInputChange]: the only element bound to it is the text input named
    [idea] (line 272), so the computed key [[name]] is the [idea] field. *)
Definition handleInputChange (value : jsstring) (st : AppState)
  : AppState * list Effect :=
  (setFormState (fun prev => set_idea value prev) st, []).

(** The [onChange] of a [SelectControl] (lines 300 to 308). *)
Definition handleSelectChange (field : SelectField) (value : jsstring)
    (st : AppState) : AppState * list Effect :=
  (setFormState (fun p => set_select field value p) st, []).

Definition toggle (item : jsstring) (field : MultiField) (prev : FormState)
  : FormState :=
  let currentSelection := get_multi field prev in
  let newSelection :=
    if includes item currentSelection
    then filter (fun i => strict_neq i item) currentSelection
    else currentSelection ++ [item] in
  set_multi field newSelection prev.

Definition toggleMultiSelect (item : jsstring) (field : MultiField)
    (st : AppState) : AppState * list Effect :=
  (setFormState (toggle item field) st, []).

Definition handleApplyPreset (preset : Preset) (st : AppState)
  : AppState * list Effect :=
  (setFormState (fun prev => spread prev (settings preset)) st, []).

Definition handleGenerateJson (st : AppState) : AppState * list Effect :=
  (setValidationStatus unchecked
     (setGeneratedJson (Some (JSON_stringify (jsonObject (formState st)))) st),
   []).

Definition handleReset (st : AppState) : AppState * list Effect :=
  (setValidationStatus unchecked
     (setGeneratedJson None (setFormState (fun _ => initialState) st)),
   []).

(** The clipboard write is asynchronous: its [then] callback is
    [copyResolved], and the timer it sets fires [copyTimeout]. *)
Definition handleCopyJson (st : AppState) : AppState * list Effect :=
  match truthy (generatedJson st) with
  | None => (st, [])
  | Some text => (st, [ClipboardWriteText text])
  end.

Definition copyResolved (st : AppState) : AppState * list Effect :=
  (setCopyButtonText (js "Copied!") st, [SetTimeout 2000]).

Definition copyTimeout (st : AppState) : AppState * list Effect :=
  (setCopyButtonText (js "Copy") st, []).

(** The name of the downloaded file (lines 220 and 221). *)
Definition downloadName (idea : jsstring) : jsstring :=
  let replaced := replace_space_runs (toLowerCase (trim idea)) in
  let fileName := if is_empty replaced then js "prompt" else replaced in
  fileName ++ js ".json".

Definition handleDownloadJson (st : AppState) : AppState * list Effect :=
  match truthy (generatedJson st) with
  | None => (st, [])
  | Some text =>
      (st, [Download (downloadName (idea (formState st))) text
              (js "application/json")])
  end.

Definition handleSelfTest (st : AppState) : AppState * list Effect :=
  match truthy (generatedJson st) with
  | None => (st, [])
  | Some text => (setValidationStatus (selfTest text) st, [])
  end.

(** [applyTheme] of the theme effect (lines 124 to 132). *)
Definition applyTheme (t : jsstring) (st : AppState) : AppState * list Effect :=
  if strict_eq t (js "light")
  then (setEffectiveTheme (js "light") st, [SetDataTheme (Some (js "light"))])
  else (setEffectiveTheme (js "dark") st, [SetDataTheme None]).

Definition scheme (prefersDark : bool) : jsstring :=
  if prefersDark then js "dark" else js "light".

(** The effect on [theme] (lines 140 to 147); [prefersDark] is what the media
    query answers. *)
Definition themeEffect (prefersDark : bool) (st : AppState)
  : AppState * list Effect :=
  if strict_eq (theme st) (js "system") then applyTheme (scheme prefersDark) st
  else applyTheme (theme st) st.

(** [handleSetTheme], followed by the effect, which runs when the theme has
    changed. *)
Definition handleSetTheme (newTheme : jsstring) (prefersDark : bool)
    (st : AppState) : AppState * list Effect :=
  let st1 := setTheme newTheme st in
  let (st2, fx) :=
    if strict_eq newTheme (theme st) then (st1, [])
    else themeEffect prefersDark st1 in
  (st2, LocalStorageSetItem (js "asmr-veo-theme") newTheme :: fx).

Definition handleSystemThemeChange (matches : bool) (st : AppState)
  : AppState * list Effect :=
  if strict_eq (theme st) (js "system") then applyTheme (scheme matches) st
  else (st, []).

(** ** Events: what the rendered page lets the user and the browser do *)

Inductive Event :=
| Mounted (prefersDark : bool)
| ChangeIdea (value : jsstring)
| ClickPreset (preset : Preset)
| ClickChip (field : MultiField) (item : jsstring)
| ChangeSelect (field : SelectField) (value : jsstring)
| ClickGenerate
| ClickReset
| ClickCopy
| ClipboardWritten
| CopyTimerFired
| ClickDownload
| ClickSelfTest
| ClickTheme (newTheme : jsstring) (prefersDark : bool)
| SystemThemeChange (matches : bool).

Definition handle (e : Event) (st : AppState) : AppState * list Effect :=
  match e with
  | Mounted prefersDark => themeEffect prefersDark st
  | ChangeIdea value => handleInputChange value st
  | ClickPreset preset => handleApplyPreset preset st
  | ClickChip field item => toggleMultiSelect item field st
  | ChangeSelect field value => handleSelectChange field value st
  | ClickGenerate => handleGenerateJson st
  | ClickReset => handleReset st
  | ClickCopy => handleCopyJson st
  | ClipboardWritten => copyResolved st
  | CopyTimerFired => copyTimeout st
  | ClickDownload => handleDownloadJson st
  | ClickSelfTest => handleSelfTest st
  | ClickTheme newTheme prefersDark => handleSetTheme newTheme prefersDark st
  | SystemThemeChange matches => handleSystemThemeChange matches st
  end.

(** The events the page offers: a preset button per entry of [PRESETS], a
    chip per item of the field's list, the options of each select, and the
    three theme buttons. *)
Definition offered (e : Event) : Prop :=
  match e with
  | ClickPreset preset => In preset PRESETS
  | ClickChip field item => In item (items field)
  | ChangeSelect field value => In value (options field)
  | ClickTheme newTheme _ => In newTheme [js "dark"; js "light"; js "system"]
  | _ => True
  end.

(** The states the page can be in: from the initial state by offered
    events. *)
Inductive reachable : AppState -> Prop :=
| reachable_initial stored : reachable (initialAppState stored)
| reachable_step st e :
    reachable st -> offered e -> reachable (fst (handle e st)).

End Handlers.

(** ** Definitions used by the statements and their proofs *)

(** A case mapping that lowers the ASCII letters only: an instance of the
    parameter for the examples. *)
Definition lower_ascii (s : jsstring) : jsstring :=
  map (fun c => if ((65 <=? c) && (c <=? 90))%N then (c + 32)%N else c) s.

(** The first preset of the table. *)
Definition forest_rain : Preset :=
  nth 0 PRESETS
    (mkPreset [] (mkSettings None None None None None None None None None)).

(** [Object.keys] of a value. *)
Definition keys (v : JValue) : list jsstring :=
  match v with
  | JObject ms => map fst ms
  | _ => []
  end.

(** The elements of a list other than [x], in their order. *)
Inductive Removed (x : jsstring) : list jsstring -> list jsstring -> Prop :=
| Removed_nil : Removed x [] []
| Removed_drop l l' : Removed x l l' -> Removed x (x :: l) l'
| Removed_keep y l l' : y <> x -> Removed x l l' -> Removed x (y :: l) (y :: l').

(** Duplicate-free, as a test. *)
Fixpoint nodupb (l : list jsstring) : bool :=
  match l with
  | [] => true
  | x :: r => negb (includes x r) && nodupb r
  end.

Definition given_in (v : option jsstring) (l : list jsstring) : bool :=
  match v with
  | Some x => includes x l
  | None => true
  end.

Definition given_nodup (v : option (list jsstring)) : bool :=
  match v with
  | Some l => nodupb l
  | None => true
  end.

(** A [settings] object keeps the invariant of the form: the options it names
    are offered, its lists have no duplicate. *)
Definition settings_ok (p : Settings) : bool :=
  given_in (s_cameraMovement p) CAMERA_MOVEMENTS
  && given_in (s_cameraAngle p) CAMERA_ANGLES
  && given_in (s_cameraFocus p) CAMERA_FOCUS
  && given_in (s_soundscapePrimary p) PRIMARY_SOUNDS
  && given_in (s_soundscapeQuality p) SOUND_QUALITIES
  && given_nodup (s_moods p)
  && given_nodup (s_soundscapeSecondary p)
  && given_nodup (s_visualEffects p).

(** The invariant of the data model: every select holds one of its options,
    no multi-valued field holds an item twice. *)
Definition form_invariant (s : FormState) : Prop :=
  (forall c, In (get_select c s) (options c))
  /\ (forall m, NoDup (get_multi m s)).

(** Whether a string begins, or ends, with white space. *)
Definition starts_with_space (s : jsstring) : bool :=
  match s with
  | c :: _ => is_space c
  | [] => false
  end.

Definition ends_with_space (s : jsstring) : bool := starts_with_space (rev s).

(** A property name that is neither an array index, nor [length], nor a name
    of [Object.prototype] or [Array.prototype]: for such a name [in] looks
    at the own properties of an object only. *)
Definition plain_key (k : jsstring) : bool :=
  negb (includes k Object_prototype)
  && negb (includes k Array_prototype)
  && negb (strict_eq k (js "length"))
  && match array_index k with
     | None => true
     | Some _ => false
     end.

(** The shape the self-test asks for, in the words of the specification:
    the value is an object that contains each of the keys. *)
Definition contains_keys (v : JValue) (ks : list jsstring) : Prop :=
  exists ms, v = JObject ms /\ forall k, In k ks -> In k (map fst ms).

(** The value an object gives a key. *)
Definition value_of (v : JValue) (k : jsstring) : option JValue :=
  match v with
  | JObject ms => lookup k ms
  | _ => None
  end.

Definition well_shaped (parsed : JValue) : Prop :=
  contains_keys parsed
    [js "title"; js "description"; js "style"; js "mood"; js "camera";
     js "soundscape"; js "visual_effects"]
  /\ (exists camera,
        value_of parsed (js "camera") = Some camera
        /\ contains_keys camera [js "movement"; js "angle"; js "focus"])
  /\ (exists soundscape,
        value_of parsed (js "soundscape") = Some soundscape
        /\ contains_keys soundscape [js "primary"; js "secondary"; js "quality"]).

(** What the three [in] tests on one member of the parsed object amount to. *)
Definition member_keys (ks : list jsstring) (o : option JValue) : completion bool :=
  match o with
  | Some (JObject ms) => Normal (forallb (fun k => own_key k ms) ks)
  | Some (JArray _) => Normal false
  | _ => Throw TypeError
  end.

(** The grammar reading of [JSON_parse]: some amount of fuel reads one value
    from the text and only white space remains. *)
Definition parses_to (text : jsstring) (v : JValue) : Prop :=
  exists fuel rest, parse_value fuel text = Some (v, rest) /\ skip_ws rest = [].

(** The values [JSON.parse] reads back from their serialization as they are:
    no number (a number is serialized from its value, not from a literal) and
    no object with a key twice. *)
Fixpoint round_trips (v : JValue) : bool :=
  match v with
  | JNumber _ => false
  | JArray xs => forallb round_trips xs
  | JObject ms =>
      nodupb (map fst ms)
      && forallb (fun m => match m with (_, x) => round_trips x end) ms
  | _ => true
  end.

(** A bound on the fuel the parser needs for the serialization of a value. *)
Fixpoint size (v : JValue) : nat :=
  match v with
  | JArray xs => S (list_sum (map (fun x => S (size x)) xs))
  | JObject ms =>
      S (list_sum (map (fun m => match m with (_, x) => S (size x) end) ms))
  | _ => 1
  end.

(** Induction on values, with the hypothesis for every element of an array
    and every member of an object. *)
Section JValue_induction.

Variable P : JValue -> Prop.
Hypothesis P_null : P JNull.
Hypothesis P_bool : forall b, P (JBool b).
Hypothesis P_number : forall n, P (JNumber n).
Hypothesis P_string : forall s, P (JString s).
Hypothesis P_array : forall xs, Forall P xs -> P (JArray xs).
Hypothesis P_object : forall ms, Forall (fun m => P (snd m)) ms -> P (JObject ms).

Fixpoint JValue_nested_ind (v : JValue) : P v :=
  match v with
  | JNull => P_null
  | JBool b => P_bool b
  | JNumber n => P_number n
  | JString s => P_string s
  | JArray xs =>
      P_array
        ((fix each (l : list JValue) : Forall P l :=
            match l with
            | [] => Forall_nil P
            | x :: r => Forall_cons x (JValue_nested_ind x) (each r)
            end) xs)
  | JObject ms =>
      P_object
        ((fix each (l : list (jsstring * JValue))
            : Forall (fun m => P (snd m)) l :=
            match l with
            | [] => Forall_nil _
            | (k, x) :: r =>
                Forall_cons (A:=jsstring * JValue) (P:=fun m => P (snd m))
                  (k, x) (JValue_nested_ind x) (each r)
            end) ms)
  end.

End JValue_induction.

(** The text of one member of an object. *)
Definition member_text (indent : jsstring) (m : jsstring * JValue) : jsstring :=
  match m with
  | (k, x) => QuoteJSONString k ++ js ": " ++ SerializeJSONProperty indent x
  end.

(** A value whose serialization, at any indentation and before any text,
    is read back as the value by the parser, given fuel for its size. *)
Definition reads_back (v : JValue) : Prop :=
  forall fuel indent rest,
    size v <= fuel -> forallb is_json_ws indent = true ->
    parse_value fuel (SerializeJSONProperty indent v ++ rest) = Some (v, rest).

(** A text written with apostrophes where JSON has double quotes, for the
    examples. *)
Definition quoted (s : String.string) : jsstring :=
  map (fun c => if (c =? 39)%N then QUOTE else c) (js s).
Arguments quoted s%_string_scope.

(** ** The rendered controls (lines 92 to 113, 330 to 365) *)

(** [MultiSelectGroup]: one chip per item, in the order of [items]; the chip
    is active (and [aria-pressed]) when the selection includes its item. *)
Definition MultiSelectGroup (items selectedItems : list jsstring)
  : list (jsstring * bool) :=
  map (fun item => (item, includes item selectedItems)) items.

(** The chips the page shows for a multi-valued field. *)
Definition chips (field : MultiField) (st : AppState) : list (jsstring * bool) :=
  MultiSelectGroup (items field) (get_multi field (formState st)).

(** The states of the mounted page: the theme effect has run once, then the
    page handles offered events. *)
Inductive mounted (toLowerCase : jsstring -> jsstring) : AppState -> Prop :=
| mounted_first stored prefersDark :
    mounted toLowerCase (fst (themeEffect prefersDark (initialAppState stored)))
| mounted_step st e :
    mounted toLowerCase st -> offered e ->
    mounted toLowerCase (fst (handle toLowerCase e st)).

(** The rendering theme agrees with the preference: light for ["light"],
    either one for ["system"], dark for every other stored value. *)
Definition theme_agrees (st : AppState) : bool :=
  if strict_eq (theme st) (js "light") then strict_eq (effectiveTheme st) (js "light")
  else if strict_eq (theme st) (js "system")
       then strict_eq (effectiveTheme st) (js "dark")
            || strict_eq (effectiveTheme st) (js "light")
  else strict_eq (effectiveTheme st) (js "dark").

(** The events that replace a multi-valued field as a whole. *)
Definition replaces_selection (e : Event) : bool :=
  match e with
  | ClickPreset _ | ClickReset => true
  | _ => false
  end.

(** An object with the keys of the builder's object and any values under
    them. *)
Definition prompt_with (title description style mood visual_effects
    movement angle focus primary secondary quality : JValue) : JValue :=
  JObject
    [ (js "title", title);
      (js "description", description);
      (js "style", style);
      (js "mood", mood);
      (js "camera",
        JObject [(js "movement", movement); (js "angle", angle); (js "focus", focus)]);
      (js "soundscape",
        JObject [(js "primary", primary); (js "secondary", secondary);
                 (js "quality", quality)]);
      (js "visual_effects", visual_effects) ].

(** * Properties *)

Unset Implicit Arguments.

(** ** Strings and lists *)

Lemma strict_eq_true (a b : jsstring) : strict_eq a b = true <-> a = b.
Proof.
  revert b; induction a as [|x a IH]; intros [|y b]; simpl;
    try (split; [discriminate | congruence]); try tauto.
  rewrite andb_true_iff, N.eqb_eq, IH.
  split; [intros [-> ->]; reflexivity | intros H; inversion H; auto].
Qed.

Lemma strict_eq_refl (a : jsstring) : strict_eq a a = true.
Proof. apply strict_eq_true; reflexivity. Qed.

Lemma strict_eq_false (a b : jsstring) : strict_eq a b = false <-> a <> b.
Proof.
  rewrite <- strict_eq_true. destruct (strict_eq a b); split; congruence.
Qed.

Lemma strict_neq_true (a b : jsstring) : strict_neq a b = true <-> a <> b.
Proof.
  unfold strict_neq. rewrite negb_true_iff. apply strict_eq_false.
Qed.

Lemma includes_In (item : jsstring) (l : list jsstring) :
  includes item l = true <-> In item l.
Proof.
  unfold includes. rewrite existsb_exists. split.
  - intros (x & Hin & He). apply strict_eq_true in He. subst. assumption.
  - intros Hin. exists item. split; [assumption | apply strict_eq_refl].
Qed.

Lemma includes_not_In (item : jsstring) (l : list jsstring) :
  includes item l = false <-> ~ In item l.
Proof.
  rewrite <- includes_In. destruct (includes item l); split; congruence.
Qed.

Lemma nodupb_NoDup (l : list jsstring) : nodupb l = true -> NoDup l.
Proof.
  induction l as [|x l IH]; simpl; intros H; constructor;
    apply andb_true_iff in H; destruct H as [Hx Hl].
  - apply negb_true_iff in Hx. apply includes_not_In. assumption.
  - auto.
Qed.

Lemma filter_Removed (x : jsstring) (l : list jsstring) :
  Removed x l (filter (fun i => strict_neq i x) l).
Proof.
  induction l as [|y l IH]; simpl.
  - constructor.
  - destruct (strict_neq y x) eqn:E.
    + apply strict_neq_true in E. constructor; assumption.
    + unfold strict_neq in E. apply negb_false_iff, strict_eq_true in E.
      subst. constructor. assumption.
Qed.

Lemma filter_absent (x : jsstring) (l : list jsstring) :
  ~ In x l -> filter (fun i => strict_neq i x) l = l.
Proof.
  induction l as [|y l IH]; simpl; intros H; [reflexivity|].
  destruct (strict_neq y x) eqn:E.
  - f_equal. apply IH. tauto.
  - unfold strict_neq in E. apply negb_false_iff, strict_eq_true in E. tauto.
Qed.

Lemma filter_gone (x : jsstring) (l : list jsstring) :
  ~ In x (filter (fun i => strict_neq i x) l).
Proof.
  rewrite filter_In. intros [_ H]. apply strict_neq_true in H. congruence.
Qed.

Lemma filter_app_absent (x : jsstring) (l : list jsstring) :
  ~ In x l -> filter (fun i => strict_neq i x) (l ++ [x]) = l.
Proof.
  intros H. rewrite filter_app, filter_absent by assumption. simpl.
  unfold strict_neq. rewrite strict_eq_refl. simpl. apply app_nil_r.
Qed.

Lemma NoDup_snoc (x : jsstring) (l : list jsstring) :
  NoDup l -> ~ In x l -> NoDup (l ++ [x]).
Proof.
  induction l as [|y l IH]; simpl; intros Hn Hx.
  - constructor; [tauto | constructor].
  - inversion Hn; subst. constructor.
    + rewrite in_app_iff. simpl. intros [H|[H|[]]]; [tauto | subst; tauto].
    + apply IH; tauto.
Qed.

Lemma filter_moves_last (x : jsstring) (l : list jsstring) :
  NoDup l -> In x l -> Permutation (filter (fun i => strict_neq i x) l ++ [x]) l.
Proof.
  induction l as [|y l IH]; intros Hn Hx; [destruct Hx|].
  inversion Hn as [|? ? Hy Hl]; subst. simpl.
  destruct (strict_neq y x) eqn:E.
  - apply strict_neq_true in E. simpl. apply perm_skip, IH; [assumption|].
    destruct Hx; [congruence | assumption].
  - unfold strict_neq in E. apply negb_false_iff, strict_eq_true in E. subst y.
    rewrite filter_absent by assumption.
    apply Permutation_sym, Permutation_cons_append.
Qed.

(** ** The form state: getters and setters *)

Lemma get_set_multi (m : MultiField) (v : list jsstring) (s : FormState) :
  get_multi m (set_multi m v s) = v.
Proof. destruct m; reflexivity. Qed.

Lemma get_set_multi_other (m m' : MultiField) (v : list jsstring) (s : FormState) :
  m' <> m -> get_multi m' (set_multi m v s) = get_multi m' s.
Proof. destruct m, m'; intros H; try reflexivity; congruence. Qed.

Lemma get_select_set_multi (c : SelectField) (m : MultiField) (v : list jsstring)
    (s : FormState) :
  get_select c (set_multi m v s) = get_select c s.
Proof. destruct c, m; reflexivity. Qed.

Lemma idea_set_multi (m : MultiField) (v : list jsstring) (s : FormState) :
  idea (set_multi m v s) = idea s.
Proof. destruct m; reflexivity. Qed.

Lemma set_multi_frame (f : Field) (m : MultiField) (v : list jsstring)
    (s : FormState) :
  f <> Multi m -> field_value f (set_multi m v s) = field_value f s.
Proof.
  destruct f as [|m'|c]; simpl; intros H.
  - rewrite idea_set_multi. reflexivity.
  - rewrite get_set_multi_other; [reflexivity | congruence].
  - rewrite get_select_set_multi. reflexivity.
Qed.

Lemma toggle_field (item : jsstring) (m : MultiField) (s : FormState) :
  get_multi m (toggle item m s) =
  if includes item (get_multi m s)
  then filter (fun i => strict_neq i item) (get_multi m s)
  else get_multi m s ++ [item].
Proof. unfold toggle. apply get_set_multi. Qed.

Lemma toggle_frame (f : Field) (item : jsstring) (m : MultiField) (s : FormState) :
  f <> Multi m -> field_value f (toggle item m s) = field_value f s.
Proof. intros H. unfold toggle. apply set_multi_frame. assumption. Qed.

(** ** Toggling an item of a multi-valued field *)

(** Claim C9.  For every multi-valued field and every item, [toggleMultiSelect]
    appends an item that is not in the field's list at the end of the list,
    and for an item that is in the list it removes every occurrence of the
    item and keeps the other items in their order. *)
Theorem toggle_appends_or_removes (item : jsstring) (field : MultiField)
    (st : AppState) :
  let before := get_multi field (formState st) in
  let after := get_multi field (formState (fst (toggleMultiSelect item field st))) in
  (~ In item before -> after = before ++ [item])
  /\ (In item before -> Removed item before after /\ ~ In item after).
Proof.
  simpl. rewrite toggle_field. split; intros H.
  - apply includes_not_In in H. rewrite H. reflexivity.
  - apply includes_In in H. rewrite H. split.
    + apply filter_Removed.
    + apply filter_gone.
Qed.

Lemma toggle_appends_or_removes_witness :
  get_multi Moods
    (formState (fst (toggleMultiSelect (js "Cozy") Moods
       (initialAppState None)))) = [js "Cozy"]
  /\ ~ In (js "Calm")
       (get_multi Moods
          (formState (fst (toggleMultiSelect (js "Calm") Moods
             (fst (toggleMultiSelect (js "Calm") Moods (initialAppState None))))))).
Proof.
  split.
  - apply (proj1 (toggle_appends_or_removes (js "Cozy") Moods (initialAppState None))).
    simpl. tauto.
  - apply (proj2 (toggle_appends_or_removes (js "Calm") Moods
                    (fst (toggleMultiSelect (js "Calm") Moods (initialAppState None))))).
    vm_compute. left. reflexivity.
Defined.

(** Claim C5, as the code has it.  Toggling an item twice gives the field the
    same members as before (a permutation of the list before, when that has
    no duplicate).  When the item was not in the list the list is the one
    before; when it was, the list is the other items in their order followed
    by the item, so an item that was not last has moved.  The other fields
    are unchanged. *)
Theorem toggle_twice (item : jsstring) (field : MultiField) (st : AppState) :
  let twice s := fst (toggleMultiSelect item field (fst (toggleMultiSelect item field s))) in
  let before := get_multi field (formState st) in
  let after := get_multi field (formState (twice st)) in
  (forall x, In x after <-> In x before)
  /\ (~ In item before -> after = before)
  /\ (In item before ->
      exists others, Removed item before others /\ after = others ++ [item])
  /\ (NoDup before -> Permutation after before)
  /\ (forall f, f <> Multi field ->
      field_value f (formState (twice st)) = field_value f (formState st)).
Proof.
  simpl. rewrite !toggle_field.
  destruct (includes item (get_multi field (formState st))) eqn:E.
  - pose proof (filter_gone item (get_multi field (formState st))) as Hg.
    apply includes_not_In in Hg. rewrite Hg.
    apply includes_In in E. repeat split.
    + rewrite in_app_iff, filter_In, strict_neq_true. simpl.
      intros [[H _]|[<-|[]]]; assumption.
    + intros Hx. rewrite in_app_iff, filter_In, strict_neq_true. simpl.
      destruct (strict_eq x item) eqn:Ex.
      * apply strict_eq_true in Ex. auto.
      * apply strict_eq_false in Ex. auto.
    + tauto.
    + intros _. eexists. split; [apply filter_Removed | reflexivity].
    + intros Hn. apply filter_moves_last; assumption.
    + intros f Hf. rewrite !toggle_frame by assumption. reflexivity.
  - assert (Hin : includes item (get_multi field (formState st) ++ [item]) = true).
    { apply includes_In, in_app_iff. simpl. auto. }
    rewrite Hin. apply includes_not_In in E.
    rewrite filter_app_absent by assumption. repeat split; try tauto.
    + intros _. apply Permutation_refl.
    + intros f Hf. rewrite !toggle_frame by assumption. reflexivity.
Qed.

Lemma toggle_twice_witness :
  get_multi VisualEffects
    (formState (fst (toggleMultiSelect (js "Fog") VisualEffects
       (fst (toggleMultiSelect (js "Fog") VisualEffects (initialAppState None))))))
  = [].
Proof.
  apply (proj1 (proj2 (toggle_twice (js "Fog") VisualEffects (initialAppState None)))).
  simpl. tauto.
Defined.

(** Claim C5, as stated, fails: with moods [Calm, Cozy] (two clicks from the
    initial state), toggling [Calm] twice leaves [Cozy, Calm]. *)
Lemma toggle_twice_reorders :
  let click item st := fst (toggleMultiSelect item Moods st) in
  let st := click (js "Cozy") (click (js "Calm") (initialAppState None)) in
  moods (formState st) = [js "Calm"; js "Cozy"]
  /\ moods (formState (click (js "Calm") (click (js "Calm") st)))
     = [js "Cozy"; js "Calm"]
  /\ moods (formState (click (js "Calm") (click (js "Calm") st)))
     <> moods (formState st).
Proof.
  vm_compute. repeat split. discriminate.
Qed.

(** ** Applying a preset *)

Lemma spread_field (f : Field) (prev : FormState) (p : Settings) :
  field_value f (spread prev p) =
  match setting f p with
  | Some v => v
  | None => field_value f prev
  end.
Proof.
  destruct f as [|[]|[]]; simpl;
    match goal with |- context [overwrite _ ?o] => destruct o end; reflexivity.
Qed.

Lemma presets_leave_idea (preset : Preset) :
  In preset PRESETS -> setting Idea (settings preset) = None.
Proof.
  simpl. intros [<-|[<-|[<-|[<-|[]]]]]; reflexivity.
Qed.

(** Claim C4.  For every state and every preset of [PRESETS],
    [handleApplyPreset] gives each field the preset names the preset's value
    and leaves every other field as it was; no preset names [idea], which is
    therefore unchanged. *)
Theorem apply_preset_fields (preset : Preset) (st : AppState) :
  In preset PRESETS ->
  let after := formState (fst (handleApplyPreset preset st)) in
  (forall f v, setting f (settings preset) = Some v -> field_value f after = v)
  /\ (forall f, setting f (settings preset) = None ->
      field_value f after = field_value f (formState st))
  /\ setting Idea (settings preset) = None
  /\ idea after = idea (formState st).
Proof.
  intros Hin. simpl. repeat split.
  - intros f v H. rewrite spread_field, H. reflexivity.
  - intros f H. rewrite spread_field, H. reflexivity.
  - apply presets_leave_idea. assumption.
  - apply presets_leave_idea in Hin. simpl in Hin.
    destruct (s_idea (settings preset)); [discriminate | reflexivity].
Qed.

Lemma apply_preset_fields_witness :
  In forest_rain PRESETS
  /\ idea (formState (fst (handleApplyPreset forest_rain
             (fst (handleInputChange (js "forest rain at night")
                     (initialAppState None))))))
     = js "forest rain at night".
Proof.
  assert (H : In forest_rain PRESETS) by (left; reflexivity).
  split; [exact H|].
  exact (proj2 (proj2 (proj2
    (apply_preset_fields forest_rain
       (fst (handleInputChange (js "forest rain at night") (initialAppState None)))
       H)))).
Defined.

(** ** The invariant of the form state *)

Lemma given_in_overwrite (current : jsstring) (given : option jsstring)
    (l : list jsstring) :
  given_in given l = true -> In current l -> In (overwrite current given) l.
Proof.
  destruct given; simpl; intros H Hc; [apply includes_In|]; assumption.
Qed.

Lemma given_nodup_overwrite (current : list jsstring)
    (given : option (list jsstring)) :
  given_nodup given = true -> NoDup current -> NoDup (overwrite current given).
Proof.
  destruct given; simpl; intros H Hc; [apply nodupb_NoDup|]; assumption.
Qed.

Lemma spread_invariant (prev : FormState) (p : Settings) :
  settings_ok p = true -> form_invariant prev -> form_invariant (spread prev p).
Proof.
  unfold settings_ok. rewrite !andb_true_iff.
  intros [[[[[[[H1 H2] H3] H4] H5] H6] H7] H8] [Hs Hm]. split.
  - intros c. pose proof (Hs c) as Hc.
    destruct c;
      cbn [get_select options spread cameraMovement cameraAngle cameraFocus
           soundscapePrimary soundscapeQuality] in *;
      apply given_in_overwrite; assumption.
  - intros m. pose proof (Hm m) as Hn.
    destruct m;
      cbn [get_multi spread moods soundscapeSecondary visualEffects] in *;
      apply given_nodup_overwrite; assumption.
Qed.

Lemma presets_ok : forallb (fun p => settings_ok (settings p)) PRESETS = true.
Proof. vm_compute. reflexivity. Qed.

Lemma toggle_invariant (item : jsstring) (field : MultiField) (s : FormState) :
  form_invariant s -> form_invariant (toggle item field s).
Proof.
  intros [Hs Hm]. split.
  - intros c. unfold toggle. rewrite get_select_set_multi. apply Hs.
  - intros m. unfold toggle.
    assert (Hd : forall a b : MultiField, a = b \/ a <> b)
      by (intros [] []; (left; reflexivity) || (right; discriminate)).
    destruct (Hd m field) as [->|Hne].
    + rewrite get_set_multi.
      destruct (includes item (get_multi field s)) eqn:E.
      * apply NoDup_filter, Hm.
      * apply NoDup_snoc; [apply Hm | apply includes_not_In; assumption].
    + rewrite get_set_multi_other by assumption. apply Hm.
Qed.

Lemma set_select_invariant (field : SelectField) (value : jsstring) (s : FormState) :
  In value (options field) -> form_invariant s ->
  form_invariant (set_select field value s).
Proof.
  intros Hv [Hs Hm]. split.
  - intros c. pose proof (Hs c). destruct field, c; assumption.
  - intros m. pose proof (Hm m). destruct field, m; assumption.
Qed.

Lemma set_idea_invariant (value : jsstring) (s : FormState) :
  form_invariant s -> form_invariant (set_idea value s).
Proof.
  intros [Hs Hm]. split.
  - intros c. pose proof (Hs c). destruct c; assumption.
  - intros m. pose proof (Hm m). destruct m; assumption.
Qed.

Lemma initialState_invariant : form_invariant initialState.
Proof.
  split.
  - intros []; left; reflexivity.
  - intros []; constructor.
Qed.

Lemma applyTheme_formState (t : jsstring) (st : AppState) :
  formState (fst (applyTheme t st)) = formState st.
Proof. unfold applyTheme. destruct (strict_eq t (js "light")); reflexivity. Qed.

Lemma themeEffect_formState (b : bool) (st : AppState) :
  formState (fst (themeEffect b st)) = formState st.
Proof.
  unfold themeEffect. destruct (strict_eq (theme st) (js "system"));
    apply applyTheme_formState.
Qed.

Lemma handle_invariant (toLowerCase : jsstring -> jsstring) (e : Event)
    (st : AppState) :
  offered e -> form_invariant (formState st) ->
  form_invariant (formState (fst (handle toLowerCase e st))).
Proof.
  intros Ho Hi. destruct e; simpl in *.
  - rewrite themeEffect_formState. assumption.
  - apply set_idea_invariant. assumption.
  - apply spread_invariant; [|assumption].
    pose proof presets_ok as Hp. rewrite forallb_forall in Hp.
    apply (Hp preset). assumption.
  - apply toggle_invariant. assumption.
  - apply set_select_invariant; assumption.
  - assumption.
  - apply initialState_invariant.
  - unfold handleCopyJson. destruct (truthy (generatedJson st)); assumption.
  - assumption.
  - assumption.
  - unfold handleDownloadJson. destruct (truthy (generatedJson st)); assumption.
  - unfold handleSelfTest. destruct (truthy (generatedJson st)); assumption.
  - unfold handleSetTheme.
    destruct (strict_eq newTheme (theme st)); simpl; [assumption|].
    destruct (themeEffect prefersDark (setTheme newTheme st)) as [st2 fx] eqn:E.
    simpl. change st2 with (fst (st2, fx)). rewrite <- E.
    rewrite themeEffect_formState. assumption.
  - unfold handleSystemThemeChange.
    destruct (strict_eq (theme st) (js "system")); [|assumption].
    rewrite applyTheme_formState. assumption.
Qed.

(** Claim C6.  In every state reachable from the initial one by events the
    page offers (input, chips, selects, presets, generate, reset, copy,
    download, self-test, theme), each of the five selects holds a member of
    its option list and none of the three multi-valued fields holds an item
    twice. *)
Theorem reachable_invariant (toLowerCase : jsstring -> jsstring) (st : AppState) :
  reachable toLowerCase st ->
  (forall c, In (get_select c (formState st)) (options c))
  /\ (forall m, NoDup (get_multi m (formState st))).
Proof.
  induction 1 as [stored|st e Hr IH Ho].
  - apply initialState_invariant.
  - apply handle_invariant; assumption.
Qed.

Lemma reachable_invariant_witness :
  let st := fst (handle lower_ascii (ClickChip Moods (js "Dreamy"))
              (fst (handle lower_ascii (ClickPreset forest_rain)
                 (initialAppState None)))) in
  reachable lower_ascii st
  /\ In (cameraAngle (formState st)) CAMERA_ANGLES
  /\ NoDup (moods (formState st)).
Proof.
  assert (Hr : reachable lower_ascii
                 (fst (handle lower_ascii (ClickChip Moods (js "Dreamy"))
                    (fst (handle lower_ascii (ClickPreset forest_rain)
                       (initialAppState None)))))).
  { apply reachable_step; [apply reachable_step; [apply reachable_initial|]|].
    - left. reflexivity.
    - simpl. do 5 right. left. reflexivity. }
  split; [exact Hr|]. split.
  - exact (proj1 (reachable_invariant _ _ Hr) CameraAngle).
  - exact (proj2 (reachable_invariant _ _ Hr) Moods).
Defined.

(** ** Reset, and the handlers that need a generated JSON *)

(** Claim C7.  From any state [handleReset] sets the form to the defaults
    (empty idea, empty moods, secondary sounds and visual effects, the first
    option of each select), the generated JSON to [null] and the validation
    status to [unchecked]; the rest of the state is untouched and no effect
    is performed. *)
Theorem reset_restores_defaults (st : AppState) :
  let st' := fst (handleReset st) in
  let form := formState st' in
  idea form = [] /\ moods form = []
  /\ soundscapeSecondary form = [] /\ visualEffects form = []
  /\ (forall c, hd_error (options c) = Some (get_select c form))
  /\ generatedJson st' = None
  /\ validationStatus st' = unchecked
  /\ copyButtonText st' = copyButtonText st
  /\ theme st' = theme st /\ effectiveTheme st' = effectiveTheme st
  /\ snd (handleReset st) = []
  /\ st' = mkAppState initialState None unchecked
             (copyButtonText st) (theme st) (effectiveTheme st).
Proof.
  simpl. repeat split. intros []; reflexivity.
Qed.

(** Claim C10.  When [generatedJson] is [null], the copy, download and
    self-test handlers return the state as it is and perform no effect; in
    particular the self-test leaves the validation status as it was. *)
Theorem no_generated_json_no_action (toLowerCase : jsstring -> jsstring)
    (st : AppState) :
  generatedJson st = None ->
  handleCopyJson st = (st, [])
  /\ handleDownloadJson toLowerCase st = (st, [])
  /\ handleSelfTest st = (st, [])
  /\ validationStatus (fst (handleSelfTest st)) = validationStatus st.
Proof.
  intros H. unfold handleCopyJson, handleDownloadJson, handleSelfTest.
  rewrite H. simpl. repeat split.
Qed.

Lemma no_generated_json_no_action_witness :
  let st := fst (handleReset
              (fst (handleSelfTest (fst (handleGenerateJson (initialAppState None))))))
  in
  generatedJson st = None
  /\ handleCopyJson st = (st, [])
  /\ handleDownloadJson lower_ascii st = (st, [])
  /\ handleSelfTest st = (st, []).
Proof.
  split; [reflexivity|].
  pose proof (no_generated_json_no_action lower_ascii
    (fst (handleReset
       (fst (handleSelfTest (fst (handleGenerateJson (initialAppState None)))))))
    eq_refl) as H.
  split; [apply H|]. split; apply H.
Defined.

(** The same handlers act once a JSON text is there: the guards are not
    vacuous. *)
Lemma generated_json_actions (toLowerCase : jsstring -> jsstring) (st : AppState)
    (c : code_unit) (text : jsstring) :
  generatedJson st = Some (c :: text) ->
  handleCopyJson st = (st, [ClipboardWriteText (c :: text)])
  /\ handleDownloadJson toLowerCase st =
       (st, [Download (downloadName toLowerCase (idea (formState st)))
               (c :: text) (js "application/json")])
  /\ handleSelfTest st = (setValidationStatus (selfTest (c :: text)) st, []).
Proof.
  intros H. unfold handleCopyJson, handleDownloadJson, handleSelfTest.
  rewrite H. simpl. repeat split.
Qed.

(** ** The JSON builder *)

(** Claim C2.  For every form state the builder's object has the keys title,
    description, style, mood, camera, soundscape and visual_effects in this
    order; title is the idea, description is the template around the idea,
    style is ["ASMR"], mood is the moods list in its order, camera holds
    movement, angle and focus, soundscape holds primary, secondary (a list,
    in order) and quality, visual_effects is the visual effects list.
    [handleGenerateJson] stores the serialized object, leaves the form as it
    is and performs no effect. *)
Theorem jsonObject_fields (st : AppState) :
  let form := formState st in
  let o := jsonObject form in
  let prop v k := match get_property v k with
                  | Normal (Some x) => x
                  | _ => JNull
                  end in
  keys o = [js "title"; js "description"; js "style"; js "mood"; js "camera";
            js "soundscape"; js "visual_effects"]
  /\ prop o (js "title") = JString (idea form)
  /\ prop o (js "description") =
       JString (js "An ASMR-style video about: " ++ idea form ++ js ".")
  /\ prop o (js "style") = JString (js "ASMR")
  /\ prop o (js "mood") = JArray (map JString (moods form))
  /\ keys (prop o (js "camera")) = [js "movement"; js "angle"; js "focus"]
  /\ prop (prop o (js "camera")) (js "movement") = JString (cameraMovement form)
  /\ prop (prop o (js "camera")) (js "angle") = JString (cameraAngle form)
  /\ prop (prop o (js "camera")) (js "focus") = JString (cameraFocus form)
  /\ keys (prop o (js "soundscape")) = [js "primary"; js "secondary"; js "quality"]
  /\ prop (prop o (js "soundscape")) (js "primary")
       = JString (soundscapePrimary form)
  /\ prop (prop o (js "soundscape")) (js "secondary")
       = JArray (map JString (soundscapeSecondary form))
  /\ prop (prop o (js "soundscape")) (js "quality")
       = JString (soundscapeQuality form)
  /\ prop o (js "visual_effects") = JArray (map JString (visualEffects form))
  /\ handleGenerateJson st =
       (mkAppState form (Some (JSON_stringify o)) unchecked
          (copyButtonText st) (theme st) (effectiveTheme st), []).
Proof.
  simpl. repeat split.
Qed.

(** ** The name of the downloaded file *)

Lemma trimStart_split (s : jsstring) :
  exists pre, s = pre ++ trimStart s /\ forallb is_space pre = true.
Proof.
  induction s as [|c s (pre & Hs & Hp)]; simpl.
  - exists []. split; reflexivity.
  - destruct (is_space c) eqn:E.
    + exists (c :: pre). simpl. rewrite E, Hp. split; [f_equal; exact Hs | reflexivity].
    + exists []. split; reflexivity.
Qed.

Lemma trimStart_starts (s : jsstring) : starts_with_space (trimStart s) = false.
Proof.
  induction s as [|c s IH]; simpl; [reflexivity|].
  destruct (is_space c) eqn:E; [exact IH | simpl; exact E].
Qed.

Lemma trimEnd_split (s : jsstring) :
  exists post, s = trimEnd s ++ post /\ forallb is_space post = true.
Proof.
  unfold trimEnd. destruct (trimStart_split (rev s)) as (pre & Hs & Hp).
  exists (rev pre). split.
  - rewrite <- rev_app_distr, <- Hs, rev_involutive. reflexivity.
  - rewrite forallb_forall in *. intros x Hx. apply Hp, in_rev. exact Hx.
Qed.

Lemma trimEnd_starts (s : jsstring) :
  starts_with_space s = false -> starts_with_space (trimEnd s) = false.
Proof.
  intros Hs. destruct (trimEnd_split s) as (post & Hsplit & Hp).
  destruct (trimEnd s) as [|c t] eqn:E; [reflexivity|].
  rewrite Hsplit in Hs. exact Hs.
Qed.

(** [trim] removes white space at both ends and nothing else. *)
Lemma trim_split (s : jsstring) :
  exists pre post,
    s = pre ++ trim s ++ post
    /\ forallb is_space pre = true /\ forallb is_space post = true
    /\ starts_with_space (trim s) = false
    /\ ends_with_space (trim s) = false.
Proof.
  destruct (trimStart_split s) as (pre & Hs & Hp).
  destruct (trimEnd_split (trimStart s)) as (post & Ht & Hq).
  exists pre, post. unfold trim. repeat split; try assumption.
  - rewrite <- Ht. exact Hs.
  - apply trimEnd_starts, trimStart_starts.
  - unfold ends_with_space, trimEnd. rewrite rev_involutive.
    apply trimStart_starts.
Qed.

Lemma split_spaces_cons (s : jsstring) : exists f fs, split_spaces s = f :: fs.
Proof.
  induction s as [|c s (f & fs & IH)]; simpl.
  - eexists _, _. reflexivity.
  - destruct (is_space c).
    + destruct s as [|d s']; [eexists _, _; reflexivity|].
      destruct (is_space d); [|eexists _, _; reflexivity].
      exists f, fs. exact IH.
    + rewrite IH. eexists _, _. reflexivity.
Qed.

Lemma join_cons_head (sep : jsstring) (c : code_unit) (f : jsstring)
    (fs : list jsstring) :
  join sep ((c :: f) :: fs) = c :: join sep (f :: fs).
Proof. destruct fs; reflexivity. Qed.

Lemma join_nil_head (sep : jsstring) (f : jsstring) (fs : list jsstring) :
  join sep ([] :: f :: fs) = sep ++ join sep (f :: fs).
Proof. reflexivity. Qed.

(** [s.replace(/\s+/g, '_')] is [s.split(/\s+/).join('_')]. *)
Lemma replace_is_split_join (s : jsstring) :
  replace_space_runs s = join [UNDERSCORE] (split_spaces s).
Proof.
  unfold replace_space_runs.
  induction s as [|c s IH]; [reflexivity|].
  simpl. destruct (is_space c) eqn:E.
  - destruct s as [|d s'].
    + reflexivity.
    + destruct (is_space d) eqn:Ed.
      * rewrite <- IH. simpl. rewrite Ed. reflexivity.
      * destruct (split_spaces_cons (d :: s')) as (f & fs & Hf).
        rewrite Hf, join_nil_head, <- Hf, <- IH. simpl.
        rewrite Ed. reflexivity.
  - destruct (split_spaces_cons s) as (f & fs & Hf).
    rewrite Hf, join_cons_head, <- Hf, <- IH. reflexivity.
Qed.

Lemma replace_space_runs_empty (s : jsstring) :
  is_empty (replace_space_runs s) = is_empty s.
Proof.
  destruct s as [|c s]; [reflexivity|].
  unfold replace_space_runs. simpl. destruct (is_space c); reflexivity.
Qed.

(** No piece of [split_spaces] holds white space. *)
Lemma split_spaces_pieces (s : jsstring) :
  Forall (fun f => forallb (fun c => negb (is_space c)) f = true) (split_spaces s).
Proof.
  induction s as [|c s IH]; simpl.
  - repeat constructor.
  - destruct (is_space c) eqn:E.
    + destruct s as [|d s']; [repeat constructor|].
      destruct (is_space d); [exact IH|]. constructor; [reflexivity | exact IH].
    + destruct (split_spaces s) as [|f fs]; [repeat constructor; simpl; rewrite E; reflexivity|].
      inversion IH; subst. constructor; [|assumption].
      simpl. rewrite E. simpl. assumption.
Qed.

(** Claim C8.  For every idea, with a [toLowerCase] that gives the empty
    string for the empty string only: when the idea is empty after [trim] the
    file name is ["prompt.json"]; otherwise it is the trimmed idea lowercased,
    cut at its runs of white space and joined with single underscores,
    followed by [".json"].  [trim] removes the white space at both ends and
    nothing else, so the runs left are the internal ones. *)
Theorem download_name (toLowerCase : jsstring -> jsstring) (idea : jsstring) :
  (forall s, toLowerCase s = [] <-> s = []) ->
  downloadName toLowerCase idea =
    (if is_empty (trim idea) then js "prompt.json"
     else join [UNDERSCORE] (split_spaces (toLowerCase (trim idea))) ++ js ".json")
  /\ (exists pre post,
        idea = pre ++ trim idea ++ post
        /\ forallb is_space pre = true /\ forallb is_space post = true
        /\ starts_with_space (trim idea) = false
        /\ ends_with_space (trim idea) = false).
Proof.
  intros Hlow. split; [|apply trim_split].
  unfold downloadName. rewrite replace_space_runs_empty, replace_is_split_join.
  destruct (trim idea) as [|c t] eqn:E.
  - rewrite (proj2 (Hlow [])) by reflexivity. reflexivity.
  - destruct (toLowerCase (c :: t)) as [|c' t'] eqn:El.
    + apply (proj1 (Hlow _)) in El. discriminate El.
    + reflexivity.
Qed.

Lemma lower_ascii_nil (s : jsstring) : lower_ascii s = [] <-> s = [].
Proof.
  destruct s; simpl; split; intros H; try reflexivity; discriminate.
Qed.

Lemma download_name_witness :
  downloadName lower_ascii (js "  Forest  Rain at Night ")
    = js "forest_rain_at_night.json"
  /\ downloadName lower_ascii (js "   ") = js "prompt.json".
Proof.
  split.
  - rewrite (proj1 (download_name lower_ascii (js "  Forest  Rain at Night ")
                      lower_ascii_nil)).
    vm_compute. reflexivity.
  - rewrite (proj1 (download_name lower_ascii (js "   ") lower_ascii_nil)).
    vm_compute. reflexivity.
Defined.

(** ** The self-test *)

Lemma own_key_In (k : jsstring) (ms : list (jsstring * JValue)) :
  own_key k ms = true <-> In k (map fst ms).
Proof.
  unfold own_key. rewrite existsb_exists, in_map_iff. split.
  - intros (m & Hin & He). apply strict_eq_true in He. exists m. auto.
  - intros (m & He & Hin). exists m. split; [assumption|].
    apply strict_eq_true. assumption.
Qed.

Lemma own_keys_In (ks : list jsstring) (ms : list (jsstring * JValue)) :
  forallb (fun k => own_key k ms) ks = true
  <-> forall k, In k ks -> In k (map fst ms).
Proof.
  rewrite forallb_forall. split; intros H k Hk; apply own_key_In, H, Hk.
Qed.

Lemma js_in_object (k : jsstring) (ms : list (jsstring * JValue)) :
  plain_key k = true -> js_in k (Some (JObject ms)) = Normal (own_key k ms).
Proof.
  unfold plain_key. rewrite !andb_true_iff, !negb_true_iff.
  intros [[[Ho _] _] _]. unfold js_in. rewrite Ho, orb_false_r. reflexivity.
Qed.

Lemma js_in_array (k : jsstring) (xs : list JValue) :
  plain_key k = true -> js_in k (Some (JArray xs)) = Normal false.
Proof.
  unfold plain_key. rewrite !andb_true_iff, !negb_true_iff.
  intros [[[Ho Ha] Hl] Hi]. unfold js_in. rewrite Ho, Ha, Hl.
  destruct (array_index k); [discriminate | reflexivity].
Qed.

Lemma every_in_object (ks : list jsstring) (ms : list (jsstring * JValue)) :
  forallb plain_key ks = true ->
  every (fun key => js_in key (Some (JObject ms))) ks
  = Normal (forallb (fun k => own_key k ms) ks).
Proof.
  induction ks as [|k ks IH]; cbn [every forallb]; [reflexivity|].
  rewrite andb_true_iff. intros [Hk Hks].
  rewrite (js_in_object k ms Hk). cbn [bind].
  destruct (own_key k ms); [apply IH; assumption | reflexivity].
Qed.

Lemma in_member_object (k m : jsstring) (ms : list (jsstring * JValue)) :
  plain_key k = true ->
  in_member k (JObject ms) m = member_keys [k] (lookup m ms).
Proof.
  intros Hk. unfold in_member. simpl get_property. unfold bind.
  destruct (lookup m ms) as [[]|]; try reflexivity.
  - rewrite js_in_array by assumption. reflexivity.
  - rewrite js_in_object by assumption. simpl. rewrite andb_true_r. reflexivity.
Qed.

Lemma three_in_member (k1 k2 k3 m : jsstring) (ms : list (jsstring * JValue)) :
  forallb plain_key [k1; k2; k3] = true ->
  in_member k1 (JObject ms) m &&& in_member k2 (JObject ms) m
    &&& in_member k3 (JObject ms) m
  = member_keys [k1; k2; k3] (lookup m ms).
Proof.
  simpl. rewrite !andb_true_iff. intros (H1 & H2 & H3 & _).
  rewrite !in_member_object by assumption.
  destruct (lookup m ms) as [[]|]; try reflexivity.
  simpl. rewrite !andb_true_r.
  destruct (own_key k1 members), (own_key k2 members), (own_key k3 members);
    reflexivity.
Qed.

Lemma program_keys_plain :
  forallb plain_key
    (requiredKeys ++ [js "movement"; js "angle"; js "focus";
                      js "primary"; js "secondary"; js "quality"]) = true.
Proof. vm_compute. reflexivity. Qed.

(** The [try] block on a parsed object. *)
Lemma selfTest_object (text : jsstring) (ms : list (jsstring * JValue)) :
  JSON_parse text = Normal (JObject ms) ->
  selfTest_try text =
    (hasAllKeys <- Normal (forallb (fun k => own_key k ms) requiredKeys) ;;
     cameraKeysOk <- member_keys [js "movement"; js "angle"; js "focus"]
                       (lookup (js "camera") ms) ;;
     soundscapeKeysOk <- member_keys [js "primary"; js "secondary"; js "quality"]
                           (lookup (js "soundscape") ms) ;;
     Normal (if hasAllKeys && cameraKeysOk && soundscapeKeysOk
             then valid else invalid)).
Proof.
  intros Hp. unfold selfTest_try. rewrite Hp.
  cbv beta delta [bind] iota.
  rewrite every_in_object by (vm_compute; reflexivity).
  rewrite !three_in_member by (vm_compute; reflexivity).
  reflexivity.
Qed.

(** The [try] block on a parsed value that is not an object: an array fails
    the first test and throws at [parsed.camera], a primitive throws at the
    first [in]. *)
Lemma selfTest_not_object (text : jsstring) (parsed : JValue) :
  JSON_parse text = Normal parsed ->
  (forall ms, parsed <> JObject ms) ->
  selfTest_try text = Throw TypeError.
Proof.
  intros Hp Hn. unfold selfTest_try. rewrite Hp.
  destruct parsed; try reflexivity.
  exfalso. apply (Hn members). reflexivity.
Qed.

Lemma well_shaped_object (ms : list (jsstring * JValue)) :
  well_shaped (JObject ms) <->
  forallb (fun k => own_key k ms) requiredKeys = true
  /\ member_keys [js "movement"; js "angle"; js "focus"] (lookup (js "camera") ms)
     = Normal true
  /\ member_keys [js "primary"; js "secondary"; js "quality"]
       (lookup (js "soundscape") ms) = Normal true.
Proof.
  unfold well_shaped, contains_keys. simpl value_of. split.
  - intros [(ms0 & E0 & H0) [(cam & Hc & cms & -> & Hck) (snd & Hs & sms & -> & Hsk)]].
    inversion E0; subst ms0. rewrite Hc, Hs. cbn [member_keys].
    repeat split.
    + apply own_keys_In. exact H0.
    + f_equal. apply own_keys_In. exact Hck.
    + f_equal. apply own_keys_In. exact Hsk.
  - intros (H0 & Hc & Hs). repeat split.
    + exists ms. split; [reflexivity | apply own_keys_In; exact H0].
    + destruct (lookup (js "camera") ms) as [[]|]; try discriminate.
      eexists. split; [reflexivity|]. eexists. split; [reflexivity|].
      apply own_keys_In. cbn [member_keys] in Hc. congruence.
    + destruct (lookup (js "soundscape") ms) as [[]|]; try discriminate.
      eexists. split; [reflexivity|]. eexists. split; [reflexivity|].
      apply own_keys_In. cbn [member_keys] in Hs. congruence.
Qed.

Lemma selfTest_status (text : jsstring) :
  selfTest text = valid \/ selfTest text = invalid.
Proof.
  unfold selfTest. destruct (JSON_parse text) as [parsed|e] eqn:Hp.
  - destruct parsed;
      try (rewrite (selfTest_not_object text _ Hp) by discriminate; auto).
    rewrite (selfTest_object text members Hp). unfold bind.
    destruct (member_keys _ (lookup (js "camera") members)); [|auto].
    destruct (member_keys _ (lookup (js "soundscape") members)); [|auto].
    destruct (_ && _ && _); auto.
  - unfold selfTest_try. rewrite Hp. auto.
Qed.

(** On a text that parses, the self-test answers by the shape of the parsed
    value. *)
Lemma selfTest_of_parsed (text : jsstring) (parsed : JValue) :
  JSON_parse text = Normal parsed ->
  (selfTest text = valid <-> well_shaped parsed).
Proof.
  intros Hp. unfold selfTest.
  destruct parsed;
    try (rewrite (selfTest_not_object text _ Hp) by discriminate;
         split; [discriminate | intros [(ms & E & _) _]; discriminate]).
  rewrite (selfTest_object text members Hp). unfold bind.
  rewrite well_shaped_object. split.
  - intros H.
    destruct (member_keys _ (lookup (js "camera") members)) as [c|];
      [|discriminate].
    destruct (member_keys _ (lookup (js "soundscape") members)) as [s|];
      [|discriminate].
    destruct (forallb _ requiredKeys), c, s; try discriminate.
    repeat split.
  - intros (H0 & Hc & Hs). rewrite H0, Hc, Hs. reflexivity.
Qed.

Lemma selfTest_of_malformed (text : jsstring) (e : exn) :
  JSON_parse text = Throw e -> selfTest text = invalid.
Proof. intros Hp. unfold selfTest, selfTest_try. rewrite Hp. reflexivity. Qed.

(** Claim C3.  For every text the self-test answers [valid] exactly when the
    text parses as JSON and the parsed value is an object that contains the
    seven top-level keys, whose camera value is an object containing
    movement, angle and focus and whose soundscape value is an object
    containing primary, secondary and quality.  For every other text it
    answers [invalid]: a text that does not parse, and an exception of an
    [in] test, are caught and never reach the caller. *)
Theorem selfTest_valid_iff (text : jsstring) :
  (selfTest text = valid <->
   exists parsed, JSON_parse text = Normal parsed /\ well_shaped parsed)
  /\ (selfTest text = valid \/ selfTest text = invalid)
  /\ (forall e, JSON_parse text = Throw e -> selfTest text = invalid)
  /\ (forall e, selfTest_try text = Throw e -> selfTest text = invalid).
Proof.
  repeat split.
  - intros H. destruct (JSON_parse text) as [parsed|e] eqn:Hp.
    + exists parsed. split; [reflexivity|].
      apply (selfTest_of_parsed text parsed Hp). exact H.
    + rewrite (selfTest_of_malformed text e Hp) in H. discriminate.
  - intros (parsed & Hp & Hw). apply (selfTest_of_parsed text parsed Hp). exact Hw.
  - apply selfTest_status.
  - apply selfTest_of_malformed.
  - intros e He. unfold selfTest. rewrite He. reflexivity.
Qed.

(** ** The parser consumes its input *)

Lemma skip_ws_length (s : jsstring) : length (skip_ws s) <= length s.
Proof.
  induction s as [|c s IH]; simpl; [lia|].
  destruct (is_json_ws c); simpl; lia.
Qed.

Lemma skip_ws_tail (s : jsstring) (c : code_unit) (r : jsstring) :
  skip_ws s = c :: r -> length r < length s.
Proof.
  intros H. pose proof (skip_ws_length s) as L. rewrite H in L. simpl in L. lia.
Qed.

Lemma parse_string_chars_bound (n : nat) :
  forall s str rest,
    length s <= n -> parse_string_chars s = Some (str, rest) ->
    length rest < length s.
Proof.
  induction n as [|n IH]; intros s str rest Hn H.
  - destruct s; [discriminate | simpl in Hn; lia].
  - destruct s as [|c r]; [discriminate|]. simpl in H, Hn.
    destruct (c =? 34)%N.
    { inversion H; subst. simpl. lia. }
    destruct (c =? 92)%N.
    + destruct r as [|e r1]; [discriminate|]. simpl in Hn.
      destruct (e =? 117)%N.
      * destruct r1 as [|h1 [|h2 [|h3 [|h4 r2]]]]; try discriminate.
        destruct (hex_value h1), (hex_value h2), (hex_value h3), (hex_value h4);
          try discriminate.
        destruct (parse_string_chars r2) as [[str' rest']|] eqn:E; [|discriminate].
        inversion H; subst. apply IH in E; simpl in *; lia.
      * destruct (simple_escape e); [|discriminate].
        destruct (parse_string_chars r1) as [[str' rest']|] eqn:E; [|discriminate].
        inversion H; subst. apply IH in E; simpl in *; lia.
    + destruct (c <? 32)%N; [discriminate|].
      destruct (parse_string_chars r) as [[str' rest']|] eqn:E; [|discriminate].
      inversion H; subst. apply IH in E; simpl in *; lia.
Qed.

Lemma parse_string_chars_length (s str rest : jsstring) :
  parse_string_chars s = Some (str, rest) -> length rest < length s.
Proof. apply (parse_string_chars_bound (length s)). lia. Qed.

Lemma take_digits_length (s : jsstring) :
  length (snd (take_digits s)) <= length s.
Proof.
  induction s as [|c s IH]; simpl; [lia|].
  destruct (is_digit c); simpl; [|lia].
  destruct (take_digits s); simpl in *; lia.
Qed.

Lemma strip_prefix_length (p s rest : jsstring) :
  strip_prefix p s = Some rest -> length rest + length p = length s.
Proof.
  revert s; induction p as [|x p IH]; intros [|y s] H; simpl in *;
    try discriminate; try (inversion H; subst; simpl; lia).
  destruct (x =? y)%N; [|discriminate]. apply IH in H. lia.
Qed.

Lemma parse_int_length (s i rest : jsstring) :
  parse_int s = Some (i, rest) -> length rest < length s.
Proof.
  destruct s as [|c r]; simpl; [discriminate|].
  destruct (c =? 48)%N.
  { intros H; inversion H; subst; simpl; lia. }
  destruct (is_digit c); [|discriminate].
  pose proof (take_digits_length r) as L.
  destruct (take_digits r). intros H; inversion H; subst. simpl in *. lia.
Qed.

Lemma parse_frac_length (s f rest : jsstring) :
  parse_frac s = Some (f, rest) -> length rest <= length s.
Proof.
  destruct s as [|c r]; simpl.
  { intros H; inversion H; subst; simpl; lia. }
  destruct (c =? 46)%N.
  - pose proof (take_digits_length r) as L.
    destruct (take_digits r) as [[|d ds] r'];
      [discriminate | intros H; inversion H; subst; simpl in *; lia].
  - intros H; inversion H; subst; simpl; lia.
Qed.

Lemma parse_exp_length (s e rest : jsstring) :
  parse_exp s = Some (e, rest) -> length rest <= length s.
Proof.
  destruct s as [|c r]; simpl.
  { intros H; inversion H; subst; simpl; lia. }
  destruct ((c =? 101) || (c =? 69))%N.
  - destruct r as [|p r'].
    + simpl. discriminate.
    + destruct ((p =? 43) || (p =? 45))%N.
      * pose proof (take_digits_length r') as L.
        destruct (take_digits r') as [[|d ds] r''];
          [discriminate | intros H; inversion H; subst; simpl in *; lia].
      * pose proof (take_digits_length (p :: r')) as L.
        destruct (take_digits (p :: r')) as [[|d ds] r''];
          [discriminate | intros H; inversion H; subst; simpl in *; lia].
  - intros H; inversion H; subst; simpl; lia.
Qed.

Lemma parse_number_length (s n rest : jsstring) :
  parse_number s = Some (n, rest) -> length rest < length s.
Proof.
  unfold parse_number.
  assert (Hs : length (snd (parse_sign s)) <= length s).
  { destruct s as [|c r]; simpl; [lia|]. destruct (c =? 45)%N; simpl; lia. }
  destruct (parse_sign s) as [sg s1]. simpl in Hs.
  destruct (parse_int s1) as [[i s2]|] eqn:Ei; [|discriminate].
  destruct (parse_frac s2) as [[f s3]|] eqn:Ef; [|discriminate].
  destruct (parse_exp s3) as [[e s4]|] eqn:Ee; [|discriminate].
  intros H; inversion H; subst.
  apply parse_int_length in Ei. apply parse_frac_length in Ef.
  apply parse_exp_length in Ee. lia.
Qed.

Lemma parse_atom_length (s : jsstring) (v : JValue) (rest : jsstring) :
  parse_atom s = Some (v, rest) -> length rest < length s.
Proof.
  unfold parse_atom. destruct s as [|c r]; [discriminate|].
  destruct (c =? 34)%N.
  - destruct (parse_string_chars r) as [[str rest']|] eqn:E; [|discriminate].
    intros H; inversion H; subst. apply parse_string_chars_length in E.
    simpl. lia.
  - destruct (strip_prefix (js "null") (c :: r)) eqn:E1.
    { intros H; inversion H; subst. apply strip_prefix_length in E1.
      simpl in E1. simpl. lia. }
    destruct (strip_prefix (js "true") (c :: r)) eqn:E2.
    { intros H; inversion H; subst. apply strip_prefix_length in E2.
      simpl in E2. simpl. lia. }
    destruct (strip_prefix (js "false") (c :: r)) eqn:E3.
    { intros H; inversion H; subst. apply strip_prefix_length in E3.
      simpl in E3. simpl. lia. }
    destruct (parse_number (c :: r)) as [[n rest']|] eqn:E4; [|discriminate].
    intros H; inversion H; subst. apply parse_number_length in E4. exact E4.
Qed.

Lemma parse_value_S (f : nat) (s : jsstring) :
  parse_value (S f) s =
  match skip_ws s with
  | [] => None
  | c :: r =>
      if (c =? 91)%N then
        match skip_ws r with
        | [] => None
        | c1 :: r1 =>
            if (c1 =? 93)%N then Some (JArray [], r1)
            else match parse_elements f (c1 :: r1) with
                 | Some (vs, rest) => Some (JArray vs, rest)
                 | None => None
                 end
        end
      else if (c =? 123)%N then
        match skip_ws r with
        | [] => None
        | c1 :: r1 =>
            if (c1 =? 125)%N then Some (JObject [], r1)
            else match parse_members f (c1 :: r1) with
                 | Some (ms, rest) => Some (object_of_members ms, rest)
                 | None => None
                 end
        end
      else parse_atom (c :: r)
  end.
Proof. reflexivity. Qed.

Lemma parse_elements_S (f : nat) (s : jsstring) :
  parse_elements (S f) s =
  match parse_value f s with
  | None => None
  | Some (v, r) =>
      match skip_ws r with
      | [] => None
      | c :: r1 =>
          if (c =? 44)%N then
            match parse_elements f r1 with
            | Some (vs, rest) => Some (v :: vs, rest)
            | None => None
            end
          else if (c =? 93)%N then Some ([v], r1)
          else None
      end
  end.
Proof. reflexivity. Qed.

Lemma parse_members_S (f : nat) (s : jsstring) :
  parse_members (S f) s =
  match skip_ws s with
  | [] => None
  | q :: r0 =>
      if (q =? 34)%N then
        match parse_string_chars r0 with
        | None => None
        | Some (k, r1) =>
            match skip_ws r1 with
            | [] => None
            | c :: r2 =>
                if (c =? 58)%N then
                  match parse_value f r2 with
                  | None => None
                  | Some (v, r3) =>
                      match skip_ws r3 with
                      | [] => None
                      | d :: r4 =>
                          if (d =? 44)%N then
                            match parse_members f r4 with
                            | Some (ms, rest) => Some ((k, v) :: ms, rest)
                            | None => None
                            end
                          else if (d =? 125)%N then Some ([(k, v)], r4)
                          else None
                      end
                  end
                else None
            end
        end
      else None
  end.
Proof. reflexivity. Qed.

Lemma parse_consumes (fuel : nat) :
  (forall s v rest, parse_value fuel s = Some (v, rest) -> length rest < length s)
  /\ (forall s vs rest,
        parse_elements fuel s = Some (vs, rest) -> length rest < length s)
  /\ (forall s ms rest,
        parse_members fuel s = Some (ms, rest) -> length rest < length s).
Proof.
  induction fuel as [|f (IHv & IHe & IHm)];
    [repeat split; intros; discriminate|].
  repeat split.
  - intros s v rest H. rewrite parse_value_S in H.
    destruct (skip_ws s) as [|c r] eqn:Es; [discriminate|].
    pose proof (skip_ws_tail _ _ _ Es) as Ls.
    pose proof (skip_ws_length s) as Ls'. rewrite Es in Ls'.
    destruct (c =? 91)%N; [|destruct (c =? 123)%N].
    + destruct (skip_ws r) as [|c1 r1] eqn:Er; [discriminate|].
      pose proof (skip_ws_length r) as Lr. rewrite Er in Lr. simpl in Lr.
      destruct (c1 =? 93)%N.
      * inversion H; subst. lia.
      * destruct (parse_elements f (c1 :: r1)) as [[vs rest']|] eqn:E;
          [|discriminate].
        inversion H; subst. apply IHe in E. simpl in E. lia.
    + destruct (skip_ws r) as [|c1 r1] eqn:Er; [discriminate|].
      pose proof (skip_ws_length r) as Lr. rewrite Er in Lr. simpl in Lr.
      destruct (c1 =? 125)%N.
      * inversion H; subst. lia.
      * destruct (parse_members f (c1 :: r1)) as [[ms rest']|] eqn:E;
          [|discriminate].
        inversion H; subst. apply IHm in E. simpl in E. lia.
    + apply parse_atom_length in H. lia.
  - intros s vs rest H. rewrite parse_elements_S in H.
    destruct (parse_value f s) as [[v r]|] eqn:Ev; [|discriminate].
    apply IHv in Ev.
    destruct (skip_ws r) as [|c r1] eqn:Er; [discriminate|].
    apply skip_ws_tail in Er.
    destruct (c =? 44)%N.
    + destruct (parse_elements f r1) as [[vs' rest']|] eqn:E; [|discriminate].
      inversion H; subst. apply IHe in E. lia.
    + destruct (c =? 93)%N; [|discriminate]. inversion H; subst. lia.
  - intros s ms rest H. rewrite parse_members_S in H.
    destruct (skip_ws s) as [|q r0] eqn:Es; [discriminate|].
    apply skip_ws_tail in Es.
    destruct (q =? 34)%N; [|discriminate].
    destruct (parse_string_chars r0) as [[k r1]|] eqn:Ek; [|discriminate].
    apply parse_string_chars_length in Ek.
    destruct (skip_ws r1) as [|c r2] eqn:Er1; [discriminate|].
    apply skip_ws_tail in Er1.
    destruct (c =? 58)%N; [|discriminate].
    destruct (parse_value f r2) as [[v r3]|] eqn:Ev; [|discriminate].
    apply IHv in Ev.
    destruct (skip_ws r3) as [|d r4] eqn:Er3; [discriminate|].
    apply skip_ws_tail in Er3.
    destruct (d =? 44)%N.
    + destruct (parse_members f r4) as [[ms' rest']|] eqn:E; [|discriminate].
      inversion H; subst. apply IHm in E. lia.
    + destruct (d =? 125)%N; [|discriminate]. inversion H; subst. lia.
Qed.

(** ** The fuel of [JSON_parse] is enough

    Past twice the length of the text, more fuel changes nothing. *)
Lemma parse_fuel_stable (f1 : nat) :
  forall f2,
    (forall s, 2 * length s < f1 -> 2 * length s < f2 ->
               parse_value f1 s = parse_value f2 s)
    /\ (forall s, 2 * length s + 1 < f1 -> 2 * length s + 1 < f2 ->
                  parse_elements f1 s = parse_elements f2 s)
    /\ (forall s, 2 * length s + 1 < f1 -> 2 * length s + 1 < f2 ->
                  parse_members f1 s = parse_members f2 s).
Proof.
  induction f1 as [|f1 IH]; intros f2.
  { repeat split; intros; lia. }
  destruct f2 as [|f2]; [repeat split; intros; lia|].
  destruct (IH f2) as (IHv & IHe & IHm).
  repeat split; intros s H1 H2;
    rewrite ?parse_value_S, ?parse_elements_S, ?parse_members_S.
  - destruct (skip_ws s) as [|c r] eqn:Es; [reflexivity|].
    pose proof (skip_ws_tail _ _ _ Es) as Ls.
    destruct (c =? 91)%N; [|destruct (c =? 123)%N]; [| |reflexivity].
    + destruct (skip_ws r) as [|c1 r1] eqn:Er; [reflexivity|].
      pose proof (skip_ws_length r) as Lr. rewrite Er in Lr.
      destruct (c1 =? 93)%N; [reflexivity|].
      rewrite (IHe (c1 :: r1)) by lia. reflexivity.
    + destruct (skip_ws r) as [|c1 r1] eqn:Er; [reflexivity|].
      pose proof (skip_ws_length r) as Lr. rewrite Er in Lr.
      destruct (c1 =? 125)%N; [reflexivity|].
      rewrite (IHm (c1 :: r1)) by lia. reflexivity.
  - rewrite (IHv s) by lia.
    destruct (parse_value f2 s) as [[v r]|] eqn:Ev; [|reflexivity].
    apply (proj1 (parse_consumes f2)) in Ev.
    destruct (skip_ws r) as [|c r1] eqn:Er; [reflexivity|].
    apply skip_ws_tail in Er.
    destruct (c =? 44)%N; [|reflexivity].
    rewrite (IHe r1) by lia. reflexivity.
  - destruct (skip_ws s) as [|q r0] eqn:Es; [reflexivity|].
    apply skip_ws_tail in Es.
    destruct (q =? 34)%N; [|reflexivity].
    destruct (parse_string_chars r0) as [[k r1]|] eqn:Ek; [|reflexivity].
    apply parse_string_chars_length in Ek.
    destruct (skip_ws r1) as [|c r2] eqn:Er1; [reflexivity|].
    apply skip_ws_tail in Er1.
    destruct (c =? 58)%N; [|reflexivity].
    rewrite (IHv r2) by lia.
    destruct (parse_value f2 r2) as [[v r3]|] eqn:Ev; [|reflexivity].
    apply (proj1 (parse_consumes f2)) in Ev.
    destruct (skip_ws r3) as [|d r4] eqn:Er3; [reflexivity|].
    apply skip_ws_tail in Er3.
    destruct (d =? 44)%N; [|reflexivity].
    rewrite (IHm r4) by lia. reflexivity.
Qed.

Lemma parse_value_more_fuel (f : nat) :
  (forall s r, parse_value f s = Some r -> parse_value (S f) s = Some r)
  /\ (forall s r, parse_elements f s = Some r -> parse_elements (S f) s = Some r)
  /\ (forall s r, parse_members f s = Some r -> parse_members (S f) s = Some r).
Proof.
  induction f as [|f (IHv & IHe & IHm)];
    [repeat split; intros; discriminate|].
  repeat split; intros s res H.
  - rewrite parse_value_S in H. rewrite parse_value_S.
    destruct (skip_ws s) as [|c r]; [discriminate|].
    destruct (c =? 91)%N; [|destruct (c =? 123)%N]; [| |exact H].
    + destruct (skip_ws r) as [|c1 r1]; [discriminate|].
      destruct (c1 =? 93)%N; [exact H|].
      destruct (parse_elements f (c1 :: r1)) as [[vs rest]|] eqn:E; [|discriminate].
      rewrite (IHe _ _ E). exact H.
    + destruct (skip_ws r) as [|c1 r1]; [discriminate|].
      destruct (c1 =? 125)%N; [exact H|].
      destruct (parse_members f (c1 :: r1)) as [[ms rest]|] eqn:E; [|discriminate].
      rewrite (IHm _ _ E). exact H.
  - rewrite parse_elements_S in H. rewrite parse_elements_S.
    destruct (parse_value f s) as [[v r]|] eqn:Ev; [|discriminate].
    rewrite (IHv _ _ Ev).
    destruct (skip_ws r) as [|c r1]; [discriminate|].
    destruct (c =? 44)%N; [|exact H].
    destruct (parse_elements f r1) as [[vs rest]|] eqn:E; [|discriminate].
    rewrite (IHe _ _ E). exact H.
  - rewrite parse_members_S in H. rewrite parse_members_S.
    destruct (skip_ws s) as [|q r0]; [discriminate|].
    destruct (q =? 34)%N; [|discriminate].
    destruct (parse_string_chars r0) as [[k r1]|]; [|discriminate].
    destruct (skip_ws r1) as [|c r2]; [discriminate|].
    destruct (c =? 58)%N; [|discriminate].
    destruct (parse_value f r2) as [[v r3]|] eqn:Ev; [|discriminate].
    rewrite (IHv _ _ Ev).
    destruct (skip_ws r3) as [|d r4]; [discriminate|].
    destruct (d =? 44)%N; [|exact H].
    destruct (parse_members f r4) as [[ms rest]|] eqn:E; [|discriminate].
    rewrite (IHm _ _ E). exact H.
Qed.

Lemma parse_value_add_fuel (k f : nat) (s : jsstring) (r : JValue * jsstring) :
  parse_value f s = Some r -> parse_value (k + f) s = Some r.
Proof.
  intros H. induction k as [|k IH]; [exact H|].
  apply (proj1 (parse_value_more_fuel (k + f))). exact IH.
Qed.

(** [JSON_parse] succeeds exactly on the texts of the grammar: its fuel is
    never the reason for a [SyntaxError]. *)
Lemma parse_fuel_enough (text : jsstring) (v : JValue) :
  parses_to text v <-> JSON_parse text = Normal v.
Proof.
  unfold parses_to, JSON_parse. split.
  - intros (fuel & rest & Hp & Hr).
    assert (E : parse_value (parse_fuel text) text = Some (v, rest)).
    { destruct (Nat.le_gt_cases fuel (parse_fuel text)) as [Hle|Hgt].
      - replace (parse_fuel text) with ((parse_fuel text - fuel) + fuel) by lia.
        apply parse_value_add_fuel. exact Hp.
      - rewrite <- Hp. unfold parse_fuel in *.
        apply (proj1 (parse_fuel_stable _ fuel)); lia. }
    rewrite E, Hr. reflexivity.
  - destruct (parse_value (parse_fuel text) text) as [[v' rest]|] eqn:E;
      [|discriminate].
    destruct (skip_ws rest) eqn:Er; [|discriminate].
    intros H. inversion H; subst. exists (parse_fuel text), rest. auto.
Qed.

(** ** Quoting a string and reading it back *)

Ltac div_lia := zify; Z.to_euclidean_division_equations; lia.

Lemma hex_value_digit (d : N) : (d < 16)%N -> hex_value (hex_digit d) = Some d.
Proof.
  intros H.
  assert (Hc : In d [0; 1; 2; 3; 4; 5; 6; 7; 8; 9; 10; 11; 12; 13; 14; 15]%N)
    by (simpl; lia).
  simpl in Hc.
  repeat (destruct Hc as [<-|Hc]; [reflexivity|]). destruct Hc.
Qed.

Lemma parse_escape_u (h1 h2 h3 h4 : code_unit) (r2 : jsstring) :
  parse_string_chars (BACKSLASH :: 117%N :: h1 :: h2 :: h3 :: h4 :: r2) =
  match hex_value h1, hex_value h2, hex_value h3, hex_value h4 with
  | Some a, Some b, Some c', Some d =>
      match parse_string_chars r2 with
      | Some (str, rest) => Some ((4096 * a + 256 * b + 16 * c' + d)%N :: str, rest)
      | None => None
      end
  | _, _, _, _ => None
  end.
Proof. reflexivity. Qed.

Lemma parse_UnicodeEscape (c : code_unit) (tail : jsstring) :
  (c < 65536)%N ->
  parse_string_chars (UnicodeEscape c ++ tail) =
  match parse_string_chars tail with
  | Some (str, rest) => Some (c :: str, rest)
  | None => None
  end.
Proof.
  intros Hc. unfold UnicodeEscape, hex4. cbn [app].
  rewrite parse_escape_u.
  rewrite !hex_value_digit by div_lia.
  replace (4096 * ((c / 4096) mod 16) + 256 * ((c / 256) mod 16)
           + 16 * ((c / 16) mod 16) + c mod 16)%N with c by div_lia.
  reflexivity.
Qed.

Lemma parse_raw_unit (c : code_unit) (tail : jsstring) :
  (c =? 34)%N = false -> (c =? 92)%N = false -> (c <? 32)%N = false ->
  parse_string_chars (c :: tail) =
  match parse_string_chars tail with
  | Some (str, rest) => Some (c :: str, rest)
  | None => None
  end.
Proof.
  intros H1 H2 H3. cbn [parse_string_chars]. rewrite H1, H2, H3. reflexivity.
Qed.

Lemma surrogate_is_raw (c : code_unit) :
  is_lead_surrogate c || is_trail_surrogate c = true ->
  (c =? 34)%N = false /\ (c =? 92)%N = false /\ (c <? 32)%N = false
  /\ (c < 65536)%N.
Proof.
  unfold is_lead_surrogate, is_trail_surrogate.
  rewrite orb_true_iff, !andb_true_iff, !N.leb_le.
  rewrite !N.eqb_neq, N.ltb_ge. lia.
Qed.

(** One unit, quoted, reads back as that unit. *)
Lemma parse_quote_unit (c : code_unit) (tail : jsstring) :
  parse_string_chars (quote_unit c ++ tail) =
  match parse_string_chars tail with
  | Some (str, rest) => Some (c :: str, rest)
  | None => None
  end.
Proof.
  unfold quote_unit.
  destruct (c =? 8)%N eqn:E8; [apply N.eqb_eq in E8; subst; reflexivity|].
  destruct (c =? 9)%N eqn:E9; [apply N.eqb_eq in E9; subst; reflexivity|].
  destruct (c =? 10)%N eqn:E10; [apply N.eqb_eq in E10; subst; reflexivity|].
  destruct (c =? 12)%N eqn:E12; [apply N.eqb_eq in E12; subst; reflexivity|].
  destruct (c =? 13)%N eqn:E13; [apply N.eqb_eq in E13; subst; reflexivity|].
  destruct (c =? 34)%N eqn:E34; [apply N.eqb_eq in E34; subst; reflexivity|].
  destruct (c =? 92)%N eqn:E92; [apply N.eqb_eq in E92; subst; reflexivity|].
  destruct (c <? 32)%N eqn:E32.
  - apply parse_UnicodeEscape. apply N.ltb_lt in E32. lia.
  - cbn [orb].
    destruct (is_lead_surrogate c || is_trail_surrogate c) eqn:Es.
    + apply parse_UnicodeEscape. apply surrogate_is_raw in Es. tauto.
    + apply parse_raw_unit; assumption.
Qed.

Lemma parse_quote_units_bound (n : nat) :
  forall s rest,
    length s <= n ->
    parse_string_chars (quote_units s ++ QUOTE :: rest) = Some (s, rest).
Proof.
  induction n as [|n IH]; intros s rest Hn.
  - destruct s; [reflexivity | simpl in Hn; lia].
  - destruct s as [|c r]; [reflexivity|]. simpl in Hn.
    cbn [quote_units].
    destruct (is_lead_surrogate c) eqn:Ec.
    + destruct r as [|d r'].
      * rewrite parse_quote_unit. reflexivity.
      * destruct (is_trail_surrogate d) eqn:Ed.
        -- assert (Hc : is_lead_surrogate c || is_trail_surrogate c = true)
             by (rewrite Ec; reflexivity).
           assert (Hd : is_lead_surrogate d || is_trail_surrogate d = true)
             by (rewrite Ed; apply orb_true_r).
           apply surrogate_is_raw in Hc, Hd.
           destruct Hc as (c1 & c2 & c3 & _), Hd as (d1 & d2 & d3 & _).
           cbn [app].
           rewrite (parse_raw_unit c _ c1 c2 c3), (parse_raw_unit d _ d1 d2 d3).
           rewrite IH by (simpl in Hn; lia). reflexivity.
        -- rewrite <- app_assoc, parse_quote_unit, IH by lia. reflexivity.
    + rewrite <- app_assoc, parse_quote_unit, IH by lia. reflexivity.
Qed.

(** The text of [QuoteJSONString s], after its opening quote, reads back as
    [s]. *)
Lemma parse_quote_units (s rest : jsstring) :
  parse_string_chars (quote_units s ++ QUOTE :: rest) = Some (s, rest).
Proof. apply (parse_quote_units_bound (length s)). lia. Qed.

(** ** Serializing a value and reading it back *)

Lemma skip_ws_app (w s : jsstring) :
  forallb is_json_ws w = true -> skip_ws (w ++ s) = skip_ws s.
Proof.
  induction w as [|c w IH]; simpl; [reflexivity|].
  rewrite andb_true_iff. intros [-> H]. apply IH. exact H.
Qed.

Lemma skip_ws_head (c : code_unit) (s : jsstring) :
  is_json_ws c = false -> skip_ws (c :: s) = c :: s.
Proof. intros H. simpl. rewrite H. reflexivity. Qed.

Lemma parse_value_skip (f : nat) (w s : jsstring) :
  forallb is_json_ws w = true -> parse_value f (w ++ s) = parse_value f s.
Proof.
  intros H. destruct f; [reflexivity|].
  rewrite !parse_value_S, skip_ws_app by exact H. reflexivity.
Qed.

Lemma parse_elements_skip (f : nat) (w s : jsstring) :
  forallb is_json_ws w = true -> parse_elements f (w ++ s) = parse_elements f s.
Proof.
  intros H. destruct f; [reflexivity|].
  rewrite !parse_elements_S, parse_value_skip by exact H. reflexivity.
Qed.

Lemma parse_members_skip (f : nat) (w s : jsstring) :
  forallb is_json_ws w = true -> parse_members f (w ++ s) = parse_members f s.
Proof.
  intros H. destruct f; [reflexivity|].
  rewrite !parse_members_S, skip_ws_app by exact H. reflexivity.
Qed.

Lemma gap_ws (indent : jsstring) :
  forallb is_json_ws indent = true -> forallb is_json_ws (indent ++ gap) = true.
Proof. intros H. rewrite forallb_app, H. reflexivity. Qed.

Lemma serialize_array (indent : jsstring) (x : JValue) (xs : list JValue) :
  SerializeJSONProperty indent (JArray (x :: xs)) =
  91%N :: (LF :: indent ++ gap)
    ++ join (44%N :: LF :: indent ++ gap)
         (map (SerializeJSONProperty (indent ++ gap)) (x :: xs))
    ++ (LF :: indent) ++ [93%N].
Proof. reflexivity. Qed.

Lemma serialize_object (indent : jsstring) (m : jsstring * JValue)
    (ms : list (jsstring * JValue)) :
  SerializeJSONProperty indent (JObject (m :: ms)) =
  123%N :: (LF :: indent ++ gap)
    ++ join (44%N :: LF :: indent ++ gap) (map (member_text (indent ++ gap)) (m :: ms))
    ++ (LF :: indent) ++ [125%N].
Proof. reflexivity. Qed.

(** A serialized value starts with a character that is neither white space
    nor a closing bracket. *)
Lemma serialize_head (indent : jsstring) (v : JValue) :
  round_trips v = true ->
  exists c t,
    SerializeJSONProperty indent v = c :: t
    /\ is_json_ws c = false /\ (c =? 93)%N = false /\ (c =? 125)%N = false.
Proof.
  destruct v as [|[]|n|s|[|x xs]|[|m ms]]; intros H; try discriminate;
    eexists _, _; (split; [reflexivity | repeat split]).
Qed.

Lemma define_property_fresh (k : jsstring) (v : JValue)
    (ms : list (jsstring * JValue)) :
  ~ In k (map fst ms) -> define_property k v ms = ms ++ [(k, v)].
Proof.
  induction ms as [|[k' v'] ms IH]; simpl; intros H; [reflexivity|].
  destruct (strict_eq k' k) eqn:E.
  - apply strict_eq_true in E. tauto.
  - rewrite IH by tauto. reflexivity.
Qed.

Lemma define_properties_fresh (ms acc : list (jsstring * JValue)) :
  NoDup (map fst (acc ++ ms)) ->
  fold_left (fun a m => define_property (fst m) (snd m) a) ms acc = acc ++ ms.
Proof.
  revert acc; induction ms as [|[k v] ms IH]; intros acc H; simpl.
  - rewrite app_nil_r. reflexivity.
  - assert (Hk : ~ In k (map fst acc)).
    { rewrite map_app in H. simpl in H. apply NoDup_remove_2 in H.
      rewrite in_app_iff in H. tauto. }
    rewrite define_property_fresh by exact Hk.
    rewrite IH; rewrite <- app_assoc; [reflexivity | exact H].
Qed.

Lemma object_of_unique_members (ms : list (jsstring * JValue)) :
  nodupb (map fst ms) = true -> object_of_members ms = JObject ms.
Proof.
  intros H. unfold object_of_members.
  rewrite define_properties_fresh; [reflexivity|].
  apply nodupb_NoDup. exact H.
Qed.

Lemma join_cons (sep a : jsstring) (l : list jsstring) :
  l <> [] -> join sep (a :: l) = a ++ sep ++ join sep l.
Proof. destruct l; [congruence | reflexivity]. Qed.

Lemma parse_serialized_elements (xs : list JValue) :
  Forall reads_back xs -> xs <> [] ->
  forall f indent stepback rest,
    list_sum (map (fun x => S (size x)) xs) <= f ->
    forallb is_json_ws indent = true ->
    forallb is_json_ws stepback = true ->
    parse_elements f
      (join (44%N :: LF :: indent) (map (SerializeJSONProperty indent) xs)
         ++ LF :: stepback ++ 93%N :: rest)
    = Some (xs, rest).
Proof.
  induction xs as [|x xs IH]; intros Hall Hne f indent stepback rest Hf Hi Hs;
    [congruence|].
  inversion Hall as [|? ? Hx Hxs]; subst.
  rewrite map_cons in Hf.
  change (S (size x) + list_sum (map (fun x => S (size x)) xs) <= f) in Hf.
  destruct f as [|f]; [lia|].
  rewrite parse_elements_S.
  destruct xs as [|y ys].
  - cbn [map join]. rewrite (Hx f indent _ ltac:(lia) Hi).
    change (LF :: stepback ++ 93%N :: rest)
      with ((LF :: stepback) ++ 93%N :: rest).
    rewrite skip_ws_app by exact Hs. reflexivity.
  - rewrite map_cons, join_cons by discriminate.
    rewrite <- !app_assoc.
    rewrite (Hx f indent _ ltac:(lia) Hi).
    cbn [app]. rewrite skip_ws_head by reflexivity.
    change (44 =? 44)%N with true. cbv iota.
    match goal with
    | |- context [parse_elements f (LF :: indent ++ ?Z)] =>
        change (LF :: indent ++ Z) with ((LF :: indent) ++ Z)
    end.
    rewrite parse_elements_skip by exact Hi.
    rewrite (IH Hxs ltac:(discriminate) f indent stepback rest ltac:(lia) Hi Hs).
    reflexivity.
Qed.

Lemma member_text_app (indent k : jsstring) (v : JValue) (tail : jsstring) :
  member_text indent (k, v) ++ tail =
  QUOTE :: quote_units k
    ++ QUOTE :: 58%N :: [32%N] ++ SerializeJSONProperty indent v ++ tail.
Proof.
  unfold member_text, QuoteJSONString.
  change (js ": ") with [58%N; 32%N].
  cbn [app]. rewrite <- !app_assoc. reflexivity.
Qed.

Lemma parse_serialized_members (ms : list (jsstring * JValue)) :
  Forall (fun m => reads_back (snd m)) ms -> ms <> [] ->
  forall f indent stepback rest,
    list_sum (map (fun m => match m with (_, x) => S (size x) end) ms) <= f ->
    forallb is_json_ws indent = true ->
    forallb is_json_ws stepback = true ->
    parse_members f
      (join (44%N :: LF :: indent) (map (member_text indent) ms)
         ++ LF :: stepback ++ 125%N :: rest)
    = Some (ms, rest).
Proof.
  induction ms as [|[k v] ms IH]; intros Hall Hne f indent stepback rest Hf Hi Hs;
    [congruence|].
  inversion Hall as [|? ? Hv Hms]; subst. simpl in Hv.
  rewrite map_cons in Hf.
  change (S (size v)
          + list_sum (map (fun m => match m with (_, x) => S (size x) end) ms)
          <= f) in Hf.
  destruct f as [|f]; [lia|].
  rewrite parse_members_S.
  destruct ms as [|m ms].
  - cbn [map join]. rewrite member_text_app.
    rewrite skip_ws_head by reflexivity.
    change (QUOTE =? 34)%N with true. cbv iota.
    rewrite parse_quote_units.
    rewrite skip_ws_head by reflexivity.
    change (58 =? 58)%N with true. cbv iota.
    rewrite parse_value_skip by reflexivity.
    rewrite (Hv f indent _ ltac:(lia) Hi).
    change (LF :: stepback ++ 125%N :: rest)
      with ((LF :: stepback) ++ 125%N :: rest).
    rewrite skip_ws_app by exact Hs. reflexivity.
  - rewrite map_cons, join_cons by discriminate.
    rewrite <- !app_assoc. rewrite member_text_app.
    rewrite skip_ws_head by reflexivity.
    change (QUOTE =? 34)%N with true. cbv iota.
    rewrite parse_quote_units.
    rewrite skip_ws_head by reflexivity.
    change (58 =? 58)%N with true. cbv iota.
    rewrite parse_value_skip by reflexivity.
    rewrite (Hv f indent _ ltac:(lia) Hi).
    cbn [app]. rewrite skip_ws_head by reflexivity.
    change (44 =? 44)%N with true. cbv iota.
    match goal with
    | |- context [parse_members f (LF :: indent ++ ?Z)] =>
        change (LF :: indent ++ Z) with ((LF :: indent) ++ Z)
    end.
    rewrite parse_members_skip by exact Hi.
    rewrite (IH Hms ltac:(discriminate) f indent stepback rest ltac:(lia) Hi Hs).
    reflexivity.
Qed.

Lemma join_starts (sep a : jsstring) (l : list jsstring) :
  exists u, join sep (a :: l) = a ++ u.
Proof.
  destruct l as [|b l].
  - exists []. simpl. rewrite app_nil_r. reflexivity.
  - exists (sep ++ join sep (b :: l)). reflexivity.
Qed.

Lemma size_array (xs : list JValue) :
  size (JArray xs) = S (list_sum (map (fun x => S (size x)) xs)).
Proof. reflexivity. Qed.

Lemma size_object (ms : list (jsstring * JValue)) :
  size (JObject ms) =
  S (list_sum (map (fun m => match m with (_, x) => S (size x) end) ms)).
Proof. reflexivity. Qed.

Lemma reads_back_elements (xs : list JValue) :
  Forall (fun x => round_trips x = true -> reads_back x) xs ->
  forallb round_trips xs = true -> Forall reads_back xs.
Proof.
  induction 1 as [|x xs Hx _ IH]; simpl; intros H; constructor;
    apply andb_true_iff in H; destruct H; auto.
Qed.

Lemma reads_back_members (ms : list (jsstring * JValue)) :
  Forall (fun m => round_trips (snd m) = true -> reads_back (snd m)) ms ->
  forallb (fun m => match m with (_, x) => round_trips x end) ms = true ->
  Forall (fun m => reads_back (snd m)) ms.
Proof.
  induction 1 as [|[k x] ms Hx _ IH]; simpl; intros H; constructor;
    apply andb_true_iff in H; destruct H; auto.
Qed.

(** The parser reads the serialization of a value back as the value. *)
Lemma serialize_reads_back (v : JValue) : round_trips v = true -> reads_back v.
Proof.
  induction v as [|b|n|s|xs IH|ms IH] using JValue_nested_ind;
    intros Hr fuel indent rest Hf Hi.
  - destruct fuel; [simpl in Hf; lia | reflexivity].
  - destruct fuel; [simpl in Hf; lia | destruct b; reflexivity].
  - discriminate.
  - destruct fuel; [simpl in Hf; lia|].
    rewrite parse_value_S. cbn [SerializeJSONProperty]. unfold QuoteJSONString.
    cbn [app]. rewrite <- app_assoc. cbn [app].
    rewrite skip_ws_head by reflexivity.
    change (QUOTE =? 91)%N with false. change (QUOTE =? 123)%N with false.
    cbv iota. unfold parse_atom. change (QUOTE =? 34)%N with true. cbv iota.
    rewrite parse_quote_units. reflexivity.
  - destruct xs as [|x xs].
    { destruct fuel; [simpl in Hf; lia | reflexivity]. }
    rewrite size_array in Hf. destruct fuel as [|f]; [lia|].
    cbn [round_trips] in Hr.
    pose proof (reads_back_elements _ IH Hr) as Hall.
    rewrite serialize_array.
    pose proof (gap_ws indent Hi) as Hi'.
    remember (indent ++ gap) as indent' eqn:Ei. clear Ei.
    assert (Hx : round_trips x = true)
      by (simpl in Hr; apply andb_true_iff in Hr; tauto).
    destruct (serialize_head indent' x Hx) as (c & t & Ec & Hw & H93 & _).
    destruct (join_starts (44%N :: LF :: indent')
                (SerializeJSONProperty indent' x)
                (map (SerializeJSONProperty indent') xs)) as (u & Eu).
    rewrite parse_value_S. repeat first [rewrite <- app_assoc | progress cbn [app]].
    rewrite skip_ws_head by reflexivity.
    change (91 =? 91)%N with true. cbv iota.
    match goal with
    | |- context [skip_ws (LF :: indent' ++ ?Z)] =>
        change (LF :: indent' ++ Z) with ((LF :: indent') ++ Z);
        assert (Ez : exists r1, Z = c :: r1)
    end.
    { rewrite map_cons, Eu, Ec. eexists. reflexivity. }
    destruct Ez as (r1 & Ez).
    rewrite skip_ws_app by exact Hi'.
    rewrite Ez, skip_ws_head, H93 by exact Hw. rewrite <- Ez.
    match goal with
    | |- match ?X with Some _ => _ | None => _ end = _ =>
        assert (E : X = Some (x :: xs, rest))
          by (apply parse_serialized_elements;
              [exact Hall | discriminate | lia | exact Hi' | exact Hi])
    end.
    rewrite E. reflexivity.
  - destruct ms as [|[k x] ms].
    { destruct fuel; [simpl in Hf; lia | reflexivity]. }
    rewrite size_object in Hf. destruct fuel as [|f]; [lia|].
    cbn [round_trips] in Hr. apply andb_true_iff in Hr. destruct Hr as [Hk Hr].
    pose proof (reads_back_members _ IH Hr) as Hall.
    rewrite serialize_object.
    pose proof (gap_ws indent Hi) as Hi'.
    remember (indent ++ gap) as indent' eqn:Ei. clear Ei.
    destruct (join_starts (44%N :: LF :: indent')
                (member_text indent' (k, x))
                (map (member_text indent') ms)) as (u & Eu).
    rewrite parse_value_S. repeat first [rewrite <- app_assoc | progress cbn [app]].
    rewrite skip_ws_head by reflexivity.
    change (123 =? 91)%N with false. change (123 =? 123)%N with true. cbv iota.
    match goal with
    | |- context [skip_ws (LF :: indent' ++ ?Z)] =>
        change (LF :: indent' ++ Z) with ((LF :: indent') ++ Z);
        assert (Ez : exists r1, Z = QUOTE :: r1)
    end.
    { rewrite map_cons, Eu. eexists. reflexivity. }
    destruct Ez as (r1 & Ez).
    rewrite skip_ws_app by exact Hi'.
    rewrite Ez, skip_ws_head by reflexivity.
    change (QUOTE =? 125)%N with false. cbv iota. rewrite <- Ez.
    match goal with
    | |- match ?X with Some _ => _ | None => _ end = _ =>
        assert (E : X = Some ((k, x) :: ms, rest))
          by (apply parse_serialized_members;
              [exact Hall | discriminate | lia | exact Hi' | exact Hi])
    end.
    rewrite E, object_of_unique_members by exact Hk. reflexivity.
Qed.

(** [JSON.parse(JSON.stringify(v, null, 2))] is [v], for a value without
    numbers whose objects have distinct keys. *)
Lemma JSON_parse_stringify (v : JValue) :
  round_trips v = true -> JSON_parse (JSON_stringify v) = Normal v.
Proof.
  intros H. apply parse_fuel_enough. exists (size v), []. split; [|reflexivity].
  pose proof (serialize_reads_back v H (size v) [] [] (le_n _) eq_refl) as E.
  rewrite app_nil_r in E. exact E.
Qed.

Lemma strings_round_trip (l : list jsstring) :
  forallb round_trips (map JString l) = true.
Proof. induction l as [|s l IH]; [reflexivity | exact IH]. Qed.

Lemma jsonObject_round_trips (form : FormState) :
  round_trips (jsonObject form) = true.
Proof.
  unfold jsonObject. cbn -[js].
  rewrite !strings_round_trip. vm_compute. reflexivity.
Qed.

(** ** The generated JSON passes the self-test *)

Lemma jsonObject_well_shaped (form : FormState) : well_shaped (jsonObject form).
Proof.
  apply well_shaped_object. repeat split; vm_compute; reflexivity.
Qed.

Lemma JSON_stringify_jsonObject_nonempty (form : FormState) :
  exists c text, JSON_stringify (jsonObject form) = c :: text.
Proof.
  unfold JSON_stringify, jsonObject. rewrite serialize_object.
  eexists _, _. reflexivity.
Qed.

(** Claim C1.  For every form state, the text [JSON.stringify] gives for the
    builder's object parses back to that object, and the self-test on this
    text answers [valid]; so in every state the self-test right after
    generating sets the validation status to [valid]. *)
Theorem generated_json_is_valid (form : FormState) (st : AppState) :
  JSON_parse (JSON_stringify (jsonObject form)) = Normal (jsonObject form)
  /\ selfTest (JSON_stringify (jsonObject form)) = valid
  /\ validationStatus (fst (handleSelfTest (fst (handleGenerateJson st)))) = valid.
Proof.
  assert (Hv : forall f, selfTest (JSON_stringify (jsonObject f)) = valid).
  { intros f.
    apply (selfTest_of_parsed _ _
             (JSON_parse_stringify _ (jsonObject_round_trips f))).
    apply jsonObject_well_shaped. }
  repeat split.
  - apply JSON_parse_stringify, jsonObject_round_trips.
  - apply Hv.
  - unfold handleSelfTest, handleGenerateJson.
    cbn [fst generatedJson setValidationStatus setGeneratedJson].
    destruct (JSON_stringify_jsonObject_nonempty (formState st)) as (c & text & E).
    rewrite E. cbn [truthy fst validationStatus setValidationStatus].
    rewrite <- E. apply Hv.
Qed.

(** In every reachable state the generated JSON is [null] or the text of a
    builder's object, which is not empty: the guard of [handleSelfTest] skips
    the self-test only when nothing was generated. *)
Lemma reachable_generated_json (toLowerCase : jsstring -> jsstring)
    (st : AppState) :
  reachable toLowerCase st ->
  generatedJson st = None
  \/ exists form, generatedJson st = Some (JSON_stringify (jsonObject form)).
Proof.
  induction 1 as [stored|st e Hr IH Ho]; [left; reflexivity|].
  destruct e; try exact IH; simpl.
  - unfold themeEffect, applyTheme.
    destruct (strict_eq (theme st) (js "system"));
      [destruct (strict_eq (scheme prefersDark) (js "light"))
      |destruct (strict_eq (theme st) (js "light"))]; exact IH.
  - right. exists (formState st). reflexivity.
  - left. reflexivity.
  - unfold handleCopyJson. destruct (truthy (generatedJson st)); exact IH.
  - unfold handleDownloadJson. destruct (truthy (generatedJson st)); exact IH.
  - unfold handleSelfTest. destruct (truthy (generatedJson st)); exact IH.
  - unfold handleSetTheme, themeEffect, applyTheme.
    destruct (strict_eq newTheme (theme st)); [exact IH|].
    cbn [theme setTheme].
    destruct (strict_eq newTheme (js "system"));
      [destruct (strict_eq (scheme prefersDark) (js "light"))
      |destruct (strict_eq newTheme (js "light"))]; exact IH.
  - unfold handleSystemThemeChange, applyTheme.
    destruct (strict_eq (theme st) (js "system")); [|exact IH].
    destruct (strict_eq (scheme matches) (js "light")); exact IH.
Qed.

(** ** Examples *)

(** The example of the specification: the idea "forest rain at night" and the
    preset "Forest Rain". *)
Example forest_rain_text :
  let st := fst (handleGenerateJson
              (fst (handleApplyPreset forest_rain
                 (fst (handleInputChange (js "forest rain at night")
                         (initialAppState None)))))) in
  generatedJson st = Some (quoted "{
  'title': 'forest rain at night',
  'description': 'An ASMR-style video about: forest rain at night.',
  'style': 'ASMR',
  'mood': [
    'Calm',
    'Melancholy'
  ],
  'camera': {
    'movement': 'Slow Zoom In',
    'angle': 'Low Angle',
    'focus': 'Soft Focus'
  },
  'soundscape': {
    'primary': 'Rain',
    'secondary': [
      'Thunder',
      'Wind'
    ],
    'quality': 'High-Fidelity (Binaural)'
  },
  'visual_effects': [
    'Fog',
    'Muted Tones'
  ]
}")
  /\ validationStatus (fst (handleSelfTest st)) = valid.
Proof. vm_compute. split; reflexivity. Qed.

(** Control characters, quotes and lone surrogates are escaped, a surrogate
    pair is not. *)
Example quote_escapes :
  QuoteJSONString [9; 34; 92; 1; 55357; 56832; 56832; 233]%N
  = QUOTE :: js "\t\" ++ [QUOTE] ++ js "\\\u0001" ++ [55357; 56832]%N
      ++ js "\ude00" ++ [233%N; QUOTE].
Proof. vm_compute. reflexivity. Qed.

Example selfTest_examples :
  selfTest (quoted "{'title': 1, 'description': 2, 'style': 3, 'mood': 4,
     'camera': {'movement': null, 'angle': [], 'focus': {}},
     'soundscape': {'primary': 0, 'secondary': 0, 'quality': 0},
     'visual_effects': false, 'extra': 1e3}") = valid
  /\ selfTest (quoted "{'title': 'truncated") = invalid
  /\ selfTest (js "") = invalid
  /\ selfTest (js "[]") = invalid
  /\ selfTest (js "null") = invalid
  /\ selfTest (quoted "{'title': 1, 'description': 2, 'style': 3, 'mood': 4,
     'camera': ['movement', 'angle', 'focus'],
     'soundscape': {'primary': 0, 'secondary': 0, 'quality': 0},
     'visual_effects': false}") = invalid
  /\ selfTest (quoted "{'title': 1, 'description': 2, 'style': 3, 'mood': 4,
     'camera': {'movement': null, 'angle': [], 'focus': {}},
     'soundscape': {'primary': 0, 'secondary': 0, 'quality': 0}}") = invalid.
Proof. vm_compute. repeat split. Qed.

(** With an empty text in the state the handler's guard returns before the
    self-test, which would answer [invalid]. *)
Example handleSelfTest_empty_text :
  let st := setGeneratedJson (Some []) (initialAppState None) in
  handleSelfTest st = (st, []) /\ selfTest [] = invalid.
Proof. vm_compute. split; reflexivity. Qed.

(** * Further properties of the page *)

(** ** Chips *)

Lemma includes_filter (x item : jsstring) (l : list jsstring) :
  includes x (filter (fun i => strict_neq i item) l)
  = includes x l && negb (strict_eq x item).
Proof.
  induction l as [|y l IH]; simpl; [reflexivity|].
  destruct (strict_neq y item) eqn:E; simpl; rewrite IH.
  - destruct (strict_eq y x) eqn:Eyx; simpl; [|reflexivity].
    apply strict_eq_true in Eyx. subst y.
    unfold strict_neq in E. rewrite E. reflexivity.
  - unfold strict_neq in E. apply negb_false_iff, strict_eq_true in E. subst y.
    destruct (strict_eq item x) eqn:Eix; simpl; [|reflexivity].
    apply strict_eq_true in Eix. subst x. rewrite strict_eq_refl. simpl.
    rewrite andb_false_r. reflexivity.
Qed.

Lemma includes_snoc (x item : jsstring) (l : list jsstring) :
  includes x (l ++ [item]) = includes x l || strict_eq x item.
Proof.
  unfold includes. rewrite existsb_app. simpl. rewrite orb_false_r.
  f_equal. destruct (strict_eq item x) eqn:E.
  - apply strict_eq_true in E. subst. symmetry. apply strict_eq_refl.
  - symmetry. apply strict_eq_false. apply strict_eq_false in E. congruence.
Qed.

(** After a toggle an item is selected exactly when it was, except the
    toggled item, whose state is flipped. *)
Lemma includes_toggle (x item : jsstring) (field : MultiField) (s : FormState) :
  includes x (get_multi field (toggle item field s))
  = if strict_eq x item then negb (includes x (get_multi field s))
    else includes x (get_multi field s).
Proof.
  rewrite toggle_field.
  destruct (strict_eq x item) eqn:E.
  - apply strict_eq_true in E. subst x.
    destruct (includes item (get_multi field s)) eqn:Ei.
    + rewrite includes_filter, strict_eq_refl, andb_false_r. reflexivity.
    + rewrite includes_snoc, strict_eq_refl, orb_true_r. reflexivity.
  - destruct (includes item (get_multi field s)).
    + rewrite includes_filter, E, andb_true_r. reflexivity.
    + rewrite includes_snoc, E, orb_false_r. reflexivity.
Qed.

(** Property X1.  Clicking a chip flips that chip and no other: the chips of the field
    after the click are the chips before with the pressed state of the
    clicked item negated, and the chips of the other fields are as before.
    This holds whatever the field held, duplicates included. *)
Theorem click_flips_one_chip (item : jsstring) (field : MultiField)
    (st : AppState) :
  let st' := fst (toggleMultiSelect item field st) in
  chips field st'
  = map (fun chip => if strict_eq (fst chip) item
                     then (fst chip, negb (snd chip)) else chip)
        (chips field st)
  /\ (forall other, other <> field -> chips other st' = chips other st).
Proof.
  simpl. split.
  - unfold chips, MultiSelectGroup. simpl formState.
    rewrite map_map. apply map_ext. intros x. simpl.
    rewrite includes_toggle. destruct (strict_eq x item); reflexivity.
  - intros other Hne. unfold chips. simpl formState. unfold toggle.
    rewrite get_set_multi_other by assumption. reflexivity.
Qed.

(** ** Items that no chip shows *)

Lemma In_toggle_other (x item : jsstring) (field : MultiField) (s : FormState) :
  x <> item ->
  (In x (get_multi field (toggle item field s)) <-> In x (get_multi field s)).
Proof.
  intros Hne. rewrite <- !includes_In, includes_toggle.
  apply strict_eq_false in Hne. rewrite Hne. reflexivity.
Qed.

Lemma handle_theme_formState (toLowerCase : jsstring -> jsstring) (e : Event)
    (st : AppState) :
  match e with
  | Mounted _ | ClickTheme _ _ | SystemThemeChange _ | ClickGenerate | ClickCopy
  | ClipboardWritten | CopyTimerFired | ClickDownload | ClickSelfTest =>
      formState (fst (handle toLowerCase e st)) = formState st
  | _ => True
  end.
Proof.
  destruct e; simpl; try reflexivity; try exact I.
  - apply themeEffect_formState.
  - unfold handleCopyJson. destruct (truthy (generatedJson st)); reflexivity.
  - unfold handleDownloadJson. destruct (truthy (generatedJson st)); reflexivity.
  - unfold handleSelfTest. destruct (truthy (generatedJson st)); reflexivity.
  - unfold handleSetTheme.
    destruct (strict_eq newTheme (theme st)); [reflexivity|].
    destruct (themeEffect prefersDark (setTheme newTheme st)) as [st2 fx] eqn:E.
    simpl. change st2 with (fst (st2, fx)). rewrite <- E.
    rewrite themeEffect_formState. reflexivity.
  - unfold handleSystemThemeChange.
    destruct (strict_eq (theme st) (js "system")); [|reflexivity].
    apply applyTheme_formState.
Qed.

(** Property X2.  An item that is not in the list a field's chips are rendered from can be
    neither added nor removed by the page, except by a preset or a reset:
    every other offered event leaves its membership in the field as it is.
    The preset "Forest Rain" selects such an item, the secondary sound
    "Wind". *)
Theorem unlisted_item_is_stuck (toLowerCase : jsstring -> jsstring)
    (e : Event) (field : MultiField) (x : jsstring) (st : AppState) :
  ~ In x (items field) -> offered e -> replaces_selection e = false ->
  (In x (get_multi field (formState (fst (handle toLowerCase e st))))
   <-> In x (get_multi field (formState st))).
Proof.
  intros Hx Ho Hr.
  pose proof (handle_theme_formState toLowerCase e st) as Hf.
  destruct e; try discriminate Hr; try (rewrite Hf; reflexivity); simpl.
  - destruct field; reflexivity.
  - simpl in Ho.
    assert (Hd : field0 = field \/ field0 <> field)
      by (destruct field0, field; (left; reflexivity) || (right; discriminate)).
    destruct Hd as [->|Hne].
    + apply In_toggle_other. intros ->. contradiction.
    + unfold toggle. rewrite get_set_multi_other by congruence. reflexivity.
  - destruct field, field0; reflexivity.
Qed.

Lemma unlisted_item_is_stuck_witness :
  let st := fst (handle lower_ascii (ClickPreset forest_rain) (initialAppState None)) in
  ~ In (js "Wind") (items SoundscapeSecondary)
  /\ In (js "Wind") (soundscapeSecondary (formState st))
  /\ In (js "Wind")
       (soundscapeSecondary
          (formState (fst (handle lower_ascii
                             (ClickChip SoundscapeSecondary (js "Thunder")) st)))).
Proof.
  assert (Hx : ~ In (js "Wind") (items SoundscapeSecondary)).
  { intros H. apply includes_In in H. vm_compute in H. discriminate H. }
  assert (Hi : In (js "Wind")
                 (soundscapeSecondary
                    (formState (fst (handle lower_ascii (ClickPreset forest_rain)
                                       (initialAppState None))))))
    by (right; left; reflexivity).
  split; [exact Hx|]. split; [exact Hi|].
  apply (proj2 (unlisted_item_is_stuck lower_ascii
                  (ClickChip SoundscapeSecondary (js "Thunder"))
                  SoundscapeSecondary (js "Wind")
                  (fst (handle lower_ascii (ClickPreset forest_rain)
                          (initialAppState None)))
                  Hx (or_introl eq_refl) eq_refl)).
  exact Hi.
Defined.

(** ** Presets *)

(** Property X3.  Every preset of the table names all eight fields other than the idea, so
    the form after a preset is the preset's values with the idea of the form
    before: whatever was selected before is discarded, two forms with the
    same idea become equal, and a second preset erases the first. *)
Theorem preset_replaces_selections (preset : Preset) (prev other : FormState) :
  In preset PRESETS ->
  spread prev (settings preset)
  = set_idea (idea prev) (spread other (settings preset))
  /\ spread (spread prev (settings preset)) (settings preset)
     = spread prev (settings preset)
  /\ (forall later, In later PRESETS ->
      spread (spread prev (settings preset)) (settings later)
      = spread prev (settings later)).
Proof.
  intros Hp. repeat split.
  - simpl in Hp. destruct Hp as [<-|[<-|[<-|[<-|[]]]]]; reflexivity.
  - simpl in Hp. destruct Hp as [<-|[<-|[<-|[<-|[]]]]]; reflexivity.
  - intros later Hl. simpl in Hp, Hl.
    destruct Hp as [<-|[<-|[<-|[<-|[]]]]];
      destruct Hl as [<-|[<-|[<-|[<-|[]]]]]; reflexivity.
Qed.

Lemma preset_replaces_selections_witness :
  let edited := toggle (js "Dreamy") Moods
                  (set_select CameraAngle (js "Close-up")
                     (set_idea (js "rain") initialState)) in
  In forest_rain PRESETS
  /\ formState (fst (handleApplyPreset forest_rain
                       (setFormState (fun _ => edited) (initialAppState None))))
     = set_idea (js "rain") (spread initialState (settings forest_rain)).
Proof.
  assert (H : In forest_rain PRESETS) by (left; reflexivity).
  split; [exact H|].
  exact (proj1 (preset_replaces_selections forest_rain
                  (toggle (js "Dreamy") Moods
                     (set_select CameraAngle (js "Close-up")
                        (set_idea (js "rain") initialState)))
                  initialState H)).
Defined.

(** ** The generated text and the form *)

Lemma selfTest_jsonObject (form : FormState) :
  selfTest (JSON_stringify (jsonObject form)) = valid.
Proof.
  apply (selfTest_of_parsed _ _
           (JSON_parse_stringify _ (jsonObject_round_trips form))).
  apply jsonObject_well_shaped.
Qed.

Lemma map_JString_injective (l1 l2 : list jsstring) :
  map JString l1 = map JString l2 -> l1 = l2.
Proof.
  revert l2; induction l1 as [|a l1 IH]; intros [|b l2] H; simpl in H;
    try discriminate; [reflexivity|].
  inversion H; subst. f_equal. apply IH. assumption.
Qed.

(** Property X4.  The generated text determines the form: two forms give the same text only
    when they are equal, so no field is lost or merged in the output (a
    quote, a comma or a line break inside an idea or an item cannot make two
    different forms collide). *)
Theorem generated_text_determines_form (form1 form2 : FormState) :
  JSON_stringify (jsonObject form1) = JSON_stringify (jsonObject form2)
  <-> form1 = form2.
Proof.
  split; [|intros ->; reflexivity].
  intros H. apply (f_equal JSON_parse) in H.
  rewrite !JSON_parse_stringify in H by apply jsonObject_round_trips.
  destruct form1, form2. unfold jsonObject in H. simpl in H.
  inversion H; subst.
  repeat match goal with
         | E : map JString _ = map JString _ |- _ =>
             apply map_JString_injective in E; subst
         end.
  reflexivity.
Qed.

(** Property X5.  Editing the form does not regenerate.  After Generate, an edit of the
    idea, a preset, a chip or a select leaves the generated text and the
    validation status as they were; a download after the idea was edited
    names the file after the new idea and fills it with the text generated
    from the old form. *)
Theorem edits_keep_generated_text (toLowerCase : jsstring -> jsstring)
    (st0 : AppState) (value : jsstring) (preset : Preset) (item : jsstring)
    (field : MultiField) (select : SelectField) :
  let st := fst (handleGenerateJson st0) in
  let text := JSON_stringify (jsonObject (formState st0)) in
  let kept st' := generatedJson st' = Some text
                  /\ validationStatus st' = validationStatus st in
  kept (fst (handleInputChange value st))
  /\ kept (fst (handleApplyPreset preset st))
  /\ kept (fst (toggleMultiSelect item field st))
  /\ kept (fst (handleSelectChange select value st))
  /\ snd (handleDownloadJson toLowerCase (fst (handleInputChange value st)))
     = [Download (downloadName toLowerCase value) text (js "application/json")].
Proof.
  cbv zeta. repeat split.
Qed.

Lemma handle_keeps_json_status (toLowerCase : jsstring -> jsstring) (e : Event)
    (st : AppState) :
  match e with
  | ClickGenerate | ClickReset | ClickSelfTest => True
  | _ =>
      generatedJson (fst (handle toLowerCase e st)) = generatedJson st
      /\ validationStatus (fst (handle toLowerCase e st)) = validationStatus st
  end.
Proof.
  destruct e; try exact I; simpl;
    unfold themeEffect, handleCopyJson, handleDownloadJson, handleSetTheme,
      handleSystemThemeChange, themeEffect, applyTheme;
    cbn [theme setTheme];
    repeat match goal with
           | |- context [if ?b then _ else _] => destruct b
           | |- context [match truthy ?g with _ => _ end] => destruct (truthy g)
           end;
    split; reflexivity.
Qed.

(** Property X6.  In every reachable state the validation status is never [invalid]: the
    only texts the self-test is ever run on are texts the builder made, and
    those pass.  The status is [unchecked] while no JSON is generated, and
    [valid] only beside a generated text. *)
Theorem status_never_invalid (toLowerCase : jsstring -> jsstring)
    (st : AppState) :
  reachable toLowerCase st ->
  validationStatus st <> invalid
  /\ (generatedJson st = None -> validationStatus st = unchecked)
  /\ (validationStatus st = valid ->
      exists form, generatedJson st = Some (JSON_stringify (jsonObject form))).
Proof.
  intros Hr.
  assert (Inv : (generatedJson st = None /\ validationStatus st = unchecked)
                \/ (exists form,
                      generatedJson st = Some (JSON_stringify (jsonObject form))
                      /\ (validationStatus st = unchecked
                          \/ validationStatus st = valid))).
  { induction Hr as [stored|st e Hr IH Ho]; [left; split; reflexivity|].
    pose proof (handle_keeps_json_status toLowerCase e st) as Hk.
    destruct e; cbv beta iota in Hk;
      try (lazymatch type of Hk with
           | _ /\ _ => destruct Hk as [Hg Hs]; rewrite Hg, Hs; exact IH
           end);
      clear Hk; simpl.
    - right. exists (formState st). split; [reflexivity | left; reflexivity].
    - left. split; reflexivity.
    - unfold handleSelfTest. destruct IH as [[Hn Hs]|(form & Hg & Hs)].
      + rewrite Hn. simpl. left. split; assumption.
      + rewrite Hg.
        destruct (JSON_stringify_jsonObject_nonempty form) as (c & t & E).
        rewrite E. cbn [truthy fst generatedJson validationStatus
                          setValidationStatus].
        rewrite <- E. right. exists form. split; [exact Hg|].
        right. apply selfTest_jsonObject. }
  destruct Inv as [[Hn Hs]|(form & Hg & Hs)].
  - repeat split; intros; congruence.
  - repeat split.
    + destruct Hs; congruence.
    + intros Hn. congruence.
    + intros _. exists form. exact Hg.
Qed.

Lemma status_never_invalid_witness :
  let st := fst (handle lower_ascii ClickSelfTest
              (fst (handle lower_ascii ClickGenerate
                 (fst (handle lower_ascii (ChangeIdea (js "a \ b"))
                    (initialAppState None)))))) in
  reachable lower_ascii st
  /\ validationStatus st = valid
  /\ validationStatus st <> invalid.
Proof.
  assert (Hr : reachable lower_ascii
                 (fst (handle lower_ascii ClickSelfTest
                    (fst (handle lower_ascii ClickGenerate
                       (fst (handle lower_ascii (ChangeIdea (js "a \ b"))
                          (initialAppState None)))))))).
  { repeat (apply reachable_step; [|exact I]). apply reachable_initial. }
  split; [exact Hr|]. split; [vm_compute; reflexivity|].
  exact (proj1 (status_never_invalid lower_ascii _ Hr)).
Defined.

(** ** The download name *)

Lemma replace_from_no_space (in_match : bool) (s : jsstring) :
  forallb (fun c => negb (is_space c)) (replace_from in_match s) = true.
Proof.
  revert in_match; induction s as [|c s IH]; intros in_match; [reflexivity|].
  simpl. destruct (is_space c) eqn:E.
  - destruct in_match; [apply IH|]. simpl. apply IH.
  - simpl. rewrite E. simpl. apply IH.
Qed.

(** Property X7.  Whatever the idea and whatever the case mapping of the host, the download
    name holds no white space, and it is a non-empty stem followed by
    [".json"]. *)
Theorem download_name_has_no_space (toLowerCase : jsstring -> jsstring)
    (idea : jsstring) :
  forallb (fun c => negb (is_space c)) (downloadName toLowerCase idea) = true
  /\ exists stem,
       stem <> [] /\ downloadName toLowerCase idea = stem ++ js ".json".
Proof.
  unfold downloadName, replace_space_runs. split.
  - rewrite forallb_app.
    destruct (replace_from false (toLowerCase (trim idea))) as [|c r] eqn:E.
    + reflexivity.
    + cbn [is_empty]. rewrite <- E, replace_from_no_space. reflexivity.
  - destruct (replace_from false (toLowerCase (trim idea))) as [|c r].
    + exists (js "prompt"). split; [discriminate | reflexivity].
    + exists (c :: r). split; [discriminate | reflexivity].
Qed.

(** ** The theme *)

Lemma applyTheme_state (t : jsstring) (st : AppState) :
  fst (applyTheme t st)
  = setEffectiveTheme (if strict_eq t (js "light") then js "light" else js "dark") st.
Proof. unfold applyTheme. destruct (strict_eq t (js "light")); reflexivity. Qed.

Lemma themeEffect_state (prefersDark : bool) (st : AppState) :
  fst (themeEffect prefersDark st)
  = setEffectiveTheme
      (if strict_eq (theme st) (js "system") then scheme prefersDark
       else if strict_eq (theme st) (js "light") then js "light" else js "dark")
      st.
Proof.
  unfold themeEffect.
  destruct (strict_eq (theme st) (js "system")); rewrite applyTheme_state;
    [destruct prefersDark|]; reflexivity.
Qed.

Lemma agrees_with_scheme (b : bool) (st : AppState) :
  strict_eq (theme st) (js "system") = true ->
  theme_agrees (setEffectiveTheme (scheme b) st) = true.
Proof.
  intros Hs. unfold theme_agrees. cbn [theme effectiveTheme setEffectiveTheme].
  rewrite Hs. apply strict_eq_true in Hs. rewrite Hs.
  destruct b; reflexivity.
Qed.

Lemma themeEffect_agrees (prefersDark : bool) (st : AppState) :
  theme_agrees (fst (themeEffect prefersDark st)) = true.
Proof.
  rewrite themeEffect_state.
  destruct (strict_eq (theme st) (js "system")) eqn:Es.
  - apply agrees_with_scheme. exact Es.
  - unfold theme_agrees. cbn [theme effectiveTheme setEffectiveTheme].
    rewrite Es. destruct (strict_eq (theme st) (js "light")); reflexivity.
Qed.

Lemma handle_keeps_theme (toLowerCase : jsstring -> jsstring) (e : Event)
    (st : AppState) :
  match e with
  | Mounted _ | ClickTheme _ _ | SystemThemeChange _ => True
  | _ => theme_agrees (fst (handle toLowerCase e st)) = theme_agrees st
  end.
Proof.
  destruct e; try exact I; simpl;
    unfold handleCopyJson, handleDownloadJson, handleSelfTest;
    repeat match goal with
           | |- context [match truthy ?g with _ => _ end] => destruct (truthy g)
           end;
    reflexivity.
Qed.

Lemma handle_agrees (toLowerCase : jsstring -> jsstring) (e : Event)
    (st : AppState) :
  theme_agrees st = true ->
  theme_agrees (fst (handle toLowerCase e st)) = true.
Proof.
  intros Ha. pose proof (handle_keeps_theme toLowerCase e st) as Hk.
  destruct e; cbv beta iota in Hk;
    try (lazymatch type of Hk with _ = _ => rewrite Hk; exact Ha end);
    clear Hk; simpl.
  - apply themeEffect_agrees.
  - unfold handleSetTheme.
    destruct (strict_eq newTheme (theme st)) eqn:E.
    + apply strict_eq_true in E. subst newTheme. simpl.
      destruct st; exact Ha.
    + destruct (themeEffect prefersDark (setTheme newTheme st)) as [st2 fx] eqn:Et.
      simpl. change st2 with (fst (st2, fx)). rewrite <- Et.
      apply themeEffect_agrees.
  - unfold handleSystemThemeChange.
    destruct (strict_eq (theme st) (js "system")) eqn:Es; [|exact Ha].
    rewrite applyTheme_state.
    replace (if strict_eq (scheme matches) (js "light") then js "light"
             else js "dark") with (scheme matches) by (destruct matches; reflexivity).
    apply agrees_with_scheme. exact Es.
Qed.

(** Property X8.  On the mounted page the rendering theme always agrees with the
    preference: light when the preference is ["light"], dark or light when
    it is ["system"], and dark for every other value, a stored value that is
    none of the three included. *)
Theorem mounted_theme_agrees (toLowerCase : jsstring -> jsstring)
    (st : AppState) :
  mounted toLowerCase st ->
  (theme st = js "light" -> effectiveTheme st = js "light")
  /\ (theme st = js "system" ->
      effectiveTheme st = js "dark" \/ effectiveTheme st = js "light")
  /\ (theme st <> js "light" -> theme st <> js "system" ->
      effectiveTheme st = js "dark").
Proof.
  intros Hm.
  assert (Ha : theme_agrees st = true).
  { induction Hm as [stored b|st e Hm IH Ho].
    - apply themeEffect_agrees.
    - apply handle_agrees. exact IH. }
  unfold theme_agrees in Ha. repeat split.
  - intros Hl. rewrite Hl in Ha. apply strict_eq_true. exact Ha.
  - intros Hs. rewrite Hs in Ha. simpl in Ha.
    apply orb_true_iff in Ha. rewrite !strict_eq_true in Ha. exact Ha.
  - intros Hl Hs. apply strict_eq_false in Hl, Hs. rewrite Hl, Hs in Ha.
    apply strict_eq_true. exact Ha.
Qed.

Lemma mounted_theme_agrees_witness :
  let st := fst (handle lower_ascii (SystemThemeChange false)
              (fst (handle lower_ascii (ClickTheme (js "dark") false)
                 (fst (themeEffect true (initialAppState (Some (js "sepia")))))))) in
  mounted lower_ascii st
  /\ theme st = js "dark" /\ effectiveTheme st = js "dark".
Proof.
  assert (Hm : mounted lower_ascii
                 (fst (handle lower_ascii (SystemThemeChange false)
                    (fst (handle lower_ascii (ClickTheme (js "dark") false)
                       (fst (themeEffect true (initialAppState (Some (js "sepia"))))))))))
    by (apply mounted_step;
        [apply mounted_step; [apply mounted_first | left; reflexivity] | exact I]).
  split; [exact Hm|]. split; [reflexivity|].
  apply (proj2 (proj2 (mounted_theme_agrees lower_ascii _ Hm))); discriminate.
Defined.

(** Property X9.  Reloading keeps the theme.  A click on a theme button stores the chosen
    preference first; a page started from that stored value has the same
    preference, and for a preference other than ["system"] its first effect
    renders the theme the page showed after the click. *)
Theorem reload_keeps_theme (newTheme : jsstring) (prefersDark reloadDark : bool)
    (st : AppState) :
  newTheme <> [] -> theme_agrees st = true ->
  let clicked := handleSetTheme newTheme prefersDark st in
  let reloaded := fst (themeEffect reloadDark (initialAppState (Some newTheme))) in
  hd_error (snd clicked) = Some (LocalStorageSetItem (js "asmr-veo-theme") newTheme)
  /\ theme reloaded = theme (fst clicked)
  /\ (newTheme <> js "system" ->
      effectiveTheme reloaded = effectiveTheme (fst clicked)).
Proof.
  intros Hne Ha. cbv zeta.
  destruct newTheme as [|c s]; [congruence|]. clear Hne.
  rewrite themeEffect_state. unfold handleSetTheme.
  destruct (strict_eq (c :: s) (theme st)) eqn:E.
  - apply strict_eq_true in E. repeat split.
    intros Hs. cbn [fst theme effectiveTheme setTheme setEffectiveTheme
                      initialAppState].
    apply strict_eq_false in Hs. rewrite Hs.
    unfold theme_agrees in Ha. rewrite <- E, Hs in Ha.
    destruct (strict_eq (c :: s) (js "light"));
      apply strict_eq_true in Ha; symmetry; exact Ha.
  - destruct (themeEffect prefersDark (setTheme (c :: s) st)) as [st2 fx] eqn:Et.
    assert (E2 : st2 = fst (themeEffect prefersDark (setTheme (c :: s) st)))
      by (rewrite Et; reflexivity).
    rewrite themeEffect_state in E2. subst st2. repeat split.
    intros Hs. cbn [fst theme effectiveTheme setTheme setEffectiveTheme
                      initialAppState].
    apply strict_eq_false in Hs. rewrite Hs. reflexivity.
Qed.

Lemma reload_keeps_theme_witness :
  let st := fst (themeEffect true (initialAppState None)) in
  effectiveTheme (fst (themeEffect true (initialAppState (Some (js "light")))))
  = effectiveTheme (fst (handleSetTheme (js "light") false st)).
Proof.
  apply (proj2 (proj2 (reload_keeps_theme (js "light") false true
                         (fst (themeEffect true (initialAppState None)))
                         ltac:(discriminate) eq_refl))).
  discriminate.
Defined.

(** ** Copying *)

(** Property X10.  With a generated text and the label "Copy", a click on Copy writes
    exactly the generated text to the clipboard and changes no state; when
    the write resolves the label is "Copied!" and a timer of two seconds is
    set; when the timer fires the state is again the state before the
    click. *)
Theorem copy_cycle (st : AppState) (c : code_unit) (text : jsstring) :
  generatedJson st = Some (c :: text) -> copyButtonText st = js "Copy" ->
  handleCopyJson st = (st, [ClipboardWriteText (c :: text)])
  /\ copyButtonText (fst (copyResolved st)) = js "Copied!"
  /\ snd (copyResolved st) = [SetTimeout 2000]
  /\ copyTimeout (fst (copyResolved st)) = (st, []).
Proof.
  intros Hg Hc. unfold handleCopyJson. rewrite Hg. repeat split.
  destruct st. simpl in Hc. subst. reflexivity.
Qed.

Lemma copy_cycle_witness :
  let st := fst (handleGenerateJson (initialAppState None)) in
  generatedJson st
  = Some (123%N :: tl (JSON_stringify (jsonObject initialState)))
  /\ copyTimeout (fst (copyResolved st)) = (st, []).
Proof.
  split; [reflexivity|].
  exact (proj2 (proj2 (proj2
    (copy_cycle (fst (handleGenerateJson (initialAppState None)))
       123%N (tl (JSON_stringify (jsonObject initialState)))
       eq_refl eq_refl)))).
Defined.

(** ** What the self-test does not look at *)

(** Property X11.  The self-test looks at the presence of keys only: the
    serialized object passes whatever values stand under the eleven keys
    (null, booleans, strings, arrays or objects in any place), for values the
    parser reads back as they are. *)
Theorem selfTest_ignores_values (title description style mood visual_effects
    movement angle focus primary secondary quality : JValue) :
  forallb round_trips
    [title; description; style; mood; visual_effects;
     movement; angle; focus; primary; secondary; quality] = true ->
  selfTest
    (JSON_stringify
       (prompt_with title description style mood visual_effects
          movement angle focus primary secondary quality)) = valid.
Proof.
  intros H. cbn [forallb] in H. rewrite !andb_true_iff in H.
  destruct H as (H1 & H2 & H3 & H4 & H5 & H6 & H7 & H8 & H9 & H10 & H11 & _).
  assert (Hr : round_trips
                 (prompt_with title description style mood visual_effects
                    movement angle focus primary secondary quality) = true).
  { unfold prompt_with. cbn -[js].
    rewrite H1, H2, H3, H4, H5, H6, H7, H8, H9, H10, H11.
    vm_compute. reflexivity. }
  apply (selfTest_of_parsed _ _ (JSON_parse_stringify _ Hr)).
  apply well_shaped_object. repeat split; vm_compute; reflexivity.
Qed.

Lemma selfTest_ignores_values_witness :
  selfTest
    (JSON_stringify
       (prompt_with JNull (JBool false) (JArray []) (JString (js "Calm"))
          (JObject []) JNull JNull JNull (JArray [JNull]) JNull JNull)) = valid.
Proof.
  apply (selfTest_ignores_values JNull (JBool false) (JArray [])
           (JString (js "Calm")) (JObject []) JNull JNull JNull (JArray [JNull])
           JNull JNull).
  reflexivity.
Defined.
